(** * LAN text chat, browser client: storage, quota handling, sending and
    transport

    A shallow embedding of the client modules [storage.js], [room.js],
    [main.js] (the storage part of its [message] handler), [sender.js]
    ([sendText]), [config.js] (the numeric settings) and [transport.js]
    (class [Transport]), with the properties the specification states
    about them; and, for the further properties at the end, of
    [requestCreate], the error texts of [config.js], the connection
    notice of [state.js], [user.js], the start of [init.js], the button of
    [events.js] that creates a room, [sendFile], and the handlers of
    [main.js] that reach the store.

    Conventions
    - [localStorage] is a finite map from keys to strings; whether the
      browser accepts a write is a parameter of [setItem].
    - JavaScript values that reach the store are JSON values; a number is an
      integer (the program only writes timestamps, sizes and a version
      number), a string is a sequence of 8-bit code units, an object is its
      property list in insertion order.
    - [JSON.stringify] and [JSON.parse] are the compact writer and the
      reader of module [Json]; the reader accepts what the writer
      produces (text with insignificant white space, fractions or
      exponents is outside the modelled grammar).
    - A function that can throw returns an [outcome]; the store a failed
      call leaves behind is kept, as in JavaScript.
    - [Date.now()] is a parameter, read once for a call.
    - What the page shows is not modelled beyond the connection notice:
      whether a message can be shown is a parameter where the code depends
      on it.  Texts of the page are given in UTF-8.
    - A method or listener of the transport maps the transport's fields to
      new fields and the list of calls it makes (to the handlers, to
      sockets, to timers, to the page); sockets are named by the order of
      their creation, and the browser's events are inputs of [step]. *)

From Stdlib Require Import ZArith QArith Lia List Sorted Ascii String Decimal DecimalZ.
From stdpp Require Import base option list gmap strings.

Local Open Scope Z_scope.

(** ** JSON values *)

#[warnings="-register-all"]
Inductive json : Type :=
| JNull
| JBool (b : bool)
| JNum (n : Z)
| JStr (s : string)
| JArr (items : list json)
| JObj (props : list (string * json)).

(** Induction over nested values. *)
Section json_induction.
Variable P : json -> Prop.
Hypothesis HNull : P JNull.
Hypothesis HBool : forall b, P (JBool b).
Hypothesis HNum : forall n, P (JNum n).
Hypothesis HStr : forall s, P (JStr s).
Hypothesis HArr : forall l, Forall P l -> P (JArr l).
Hypothesis HObj : forall o, Forall (fun kv => P (snd kv)) o -> P (JObj o).

Fixpoint json_nested_ind (v : json) : P v :=
  match v with
  | JNull => HNull
  | JBool b => HBool b
  | JNum n => HNum n
  | JStr s => HStr s
  | JArr l =>
      HArr l ((fix go (l : list json) : Forall P l :=
                 match l with
                 | [] => List.Forall_nil P
                 | x :: r => List.Forall_cons P x r (json_nested_ind x) (go r)
                 end) l)
  | JObj o =>
      HObj o ((fix go (o : list (string * json))
                 : Forall (fun kv => P (snd kv)) o :=
                 match o with
                 | [] => List.Forall_nil _
                 | kv :: r =>
                     List.Forall_cons _ kv r (json_nested_ind (snd kv)) (go r)
                 end) o)
  end.
End json_induction.

(** ** JSON text *)

Module Json.

(** The double quote character, code 34. *)
Abbreviation dquote := (Ascii false true false false false true false false).

(** *** Writer (JSON.stringify), in continuation style: [write v k] is the
    text of [v] followed by [k]. *)

Definition hex_char (n : N) : ascii :=
  ascii_of_N (if (n <? 10)%N then 48 + n else 87 + n)%N.

Definition write_char (c : ascii) (k : string) : string :=
  let n := N_of_ascii c in
  if (n =? 34)%N then String "\" (String dquote k)
  else if (n =? 92)%N then String "\" (String "\" k)
  else if (n =? 8)%N then String "\" (String "b" k)
  else if (n =? 12)%N then String "\" (String "f" k)
  else if (n =? 10)%N then String "\" (String "n" k)
  else if (n =? 13)%N then String "\" (String "r" k)
  else if (n =? 9)%N then String "\" (String "t" k)
  else if (n <? 32)%N then
    String "\" (String "u" (String "0" (String "0"
      (String (hex_char (n / 16)) (String (hex_char (n mod 16)) k)))))
  else String c k.

Fixpoint write_chars (s : string) (k : string) : string :=
  match s with
  | EmptyString => k
  | String c r => write_char c (write_chars r k)
  end.

Definition write_string (s : string) (k : string) : string :=
  String dquote (write_chars s (String dquote k)).

Fixpoint write_uint (d : uint) (k : string) : string :=
  match d with
  | Nil => k
  | D0 d => String "0" (write_uint d k)
  | D1 d => String "1" (write_uint d k)
  | D2 d => String "2" (write_uint d k)
  | D3 d => String "3" (write_uint d k)
  | D4 d => String "4" (write_uint d k)
  | D5 d => String "5" (write_uint d k)
  | D6 d => String "6" (write_uint d k)
  | D7 d => String "7" (write_uint d k)
  | D8 d => String "8" (write_uint d k)
  | D9 d => String "9" (write_uint d k)
  end.

Definition write_int (i : Decimal.int) (k : string) : string :=
  match i with
  | Pos d => write_uint d k
  | Neg d => String "-" (write_uint d k)
  end.

Fixpoint write (v : json) (k : string) : string :=
  match v with
  | JNull => "null" +:+ k
  | JBool true => "true" +:+ k
  | JBool false => "false" +:+ k
  | JNum n => write_int (Z.to_int n) k
  | JStr s => write_string s k
  | JArr l =>
      String "["
        ((fix items (l : list json) (k : string) : string :=
            match l with
            | [] => k
            | x :: r =>
                write x (match r with
                         | [] => k
                         | _ :: _ => String "," (items r k)
                         end)
            end) l (String "]" k))
  | JObj o =>
      String "{"
        ((fix members (o : list (string * json)) (k : string) : string :=
            match o with
            | [] => k
            | (key, x) :: r =>
                write_string key
                  (String ":"
                     (write x (match r with
                               | [] => k
                               | _ :: _ => String "," (members r k)
                               end)))
            end) o (String "}" k))
  end.

Fixpoint write_items (l : list json) (k : string) : string :=
  match l with
  | [] => k
  | x :: r =>
      write x (match r with [] => k | _ :: _ => String "," (write_items r k) end)
  end.

Fixpoint write_members (o : list (string * json)) (k : string) : string :=
  match o with
  | [] => k
  | (key, x) :: r =>
      write_string key
        (String ":"
           (write x (match r with
                     | [] => k
                     | _ :: _ => String "," (write_members r k)
                     end)))
  end.

Definition stringify (v : json) : string := write v EmptyString.

(** *** Reader (JSON.parse) *)

Definition hex_val (c : ascii) : option N :=
  let n := N_of_ascii c in
  if ((48 <=? n) && (n <=? 57))%N then Some (n - 48)%N
  else if ((97 <=? n) && (n <=? 102))%N then Some (n - 87)%N
  else if ((65 <=? n) && (n <=? 70))%N then Some (n - 55)%N
  else None.

Definition simple_escape (e : ascii) : option ascii :=
  let n := N_of_ascii e in
  if (n =? 34)%N then Some dquote
  else if (n =? 92)%N then Some "\"%char
  else if (n =? 47)%N then Some "/"%char
  else if (n =? 98)%N then Some (ascii_of_N 8)
  else if (n =? 102)%N then Some (ascii_of_N 12)
  else if (n =? 110)%N then Some (ascii_of_N 10)
  else if (n =? 114)%N then Some (ascii_of_N 13)
  else if (n =? 116)%N then Some (ascii_of_N 9)
  else None.

(** The code unit of [\uXXXX]; units above 255 are outside the modelled
    strings. *)
Definition unicode_escape (h1 h2 h3 h4 : ascii) : option ascii :=
  match hex_val h1, hex_val h2, hex_val h3, hex_val h4 with
  | Some a, Some b, Some c, Some d =>
      if ((a =? 0) && (b =? 0))%N then Some (ascii_of_N (16 * c + d)) else None
  | _, _, _, _ => None
  end.

Definition push (c : ascii) (r : option (string * string))
  : option (string * string) :=
  match r with
  | Some (s, rest) => Some (String c s, rest)
  | None => None
  end.

(** Reads the characters of a string literal after its opening quote, up to
    and including the closing quote. *)
Fixpoint read_string (s : string) : option (string * string) :=
  match s with
  | EmptyString => None
  | String c r =>
      if (N_of_ascii c =? 34)%N then Some (EmptyString, r)
      else if (N_of_ascii c =? 92)%N then
        match r with
        | EmptyString => None
        | String e r1 =>
            match simple_escape e with
            | Some ch => push ch (read_string r1)
            | None =>
                if (N_of_ascii e =? 117)%N then
                  match r1 with
                  | String h1 (String h2 (String h3 (String h4 r2))) =>
                      match unicode_escape h1 h2 h3 h4 with
                      | Some ch => push ch (read_string r2)
                      | None => None
                      end
                  | _ => None
                  end
                else None
            end
        end
      else if (N_of_ascii c <? 32)%N then None
      else push c (read_string r)
  end.

Definition digit_of (c : ascii) : option (uint -> uint) :=
  let n := N_of_ascii c in
  if (n =? 48)%N then Some D0
  else if (n =? 49)%N then Some D1
  else if (n =? 50)%N then Some D2
  else if (n =? 51)%N then Some D3
  else if (n =? 52)%N then Some D4
  else if (n =? 53)%N then Some D5
  else if (n =? 54)%N then Some D6
  else if (n =? 55)%N then Some D7
  else if (n =? 56)%N then Some D8
  else if (n =? 57)%N then Some D9
  else None.

(** The longest prefix of decimal digits. *)
Fixpoint read_uint (s : string) : uint * string :=
  match s with
  | EmptyString => (Nil, EmptyString)
  | String c r =>
      match digit_of c with
      | Some dg => let (d, rest) := read_uint r in (dg d, rest)
      | None => (Nil, s)
      end
  end.

(** A number is accepted in the form the writer produces: no leading
    zeros, no negative zero. *)
Definition read_number (s : string) : option (json * string) :=
  let (i, rest) :=
    match s with
    | String "-" r => let (d, rest) := read_uint r in (Neg d, rest)
    | _ => let (d, rest) := read_uint s in (Pos d, rest)
    end in
  if int_beq (Z.to_int (Z.of_int i)) i then Some (JNum (Z.of_int i), rest)
  else None.

Fixpoint read_value (fuel : nat) (s : string) : option (json * string) :=
  match fuel with
  | O => None
  | S fuel =>
      match s with
      | String "n" (String "u" (String "l" (String "l" r))) => Some (JNull, r)
      | String "t" (String "r" (String "u" (String "e" r))) =>
          Some (JBool true, r)
      | String "f" (String "a" (String "l" (String "s" (String "e" r)))) =>
          Some (JBool false, r)
      | String dquote r =>
          match read_string r with
          | Some (str, rest) => Some (JStr str, rest)
          | None => None
          end
      | String "[" (String "]" r) => Some (JArr [], r)
      | String "[" r =>
          match read_items fuel r with
          | Some (l, rest) => Some (JArr l, rest)
          | None => None
          end
      | String "{" (String "}" r) => Some (JObj [], r)
      | String "{" r =>
          match read_members fuel r with
          | Some (o, rest) => Some (JObj o, rest)
          | None => None
          end
      | _ => read_number s
      end
  end
with read_items (fuel : nat) (s : string) : option (list json * string) :=
  match fuel with
  | O => None
  | S fuel =>
      match read_value fuel s with
      | Some (x, String "," r) =>
          match read_items fuel r with
          | Some (l, rest) => Some (x :: l, rest)
          | None => None
          end
      | Some (x, String "]" r) => Some ([x], r)
      | _ => None
      end
  end
with read_members (fuel : nat) (s : string)
  : option (list (string * json) * string) :=
  match fuel with
  | O => None
  | S fuel =>
      match s with
      | String dquote r =>
          match read_string r with
          | Some (key, String ":" r1) =>
              match read_value fuel r1 with
              | Some (x, String "," r2) =>
                  match read_members fuel r2 with
                  | Some (o, rest) => Some ((key, x) :: o, rest)
                  | None => None
                  end
              | Some (x, String "}" r2) => Some ([(key, x)], r2)
              | _ => None
              end
          | _ => None
          end
      | _ => None
      end
  end.

Definition parse (s : string) : option json :=
  match read_value (String.length s) s with
  | Some (v, EmptyString) => Some v
  | _ => None
  end.

(** *** Measures used to state facts about the text *)

(** [k] does not begin with a digit. *)
Definition nodigit (k : string) : Prop :=
  match k with
  | EmptyString => True
  | String c _ => digit_of c = None
  end.

(** [s] begins like a number. *)
Definition starts_number (s : string) : Prop :=
  match s with
  | EmptyString => False
  | String c _ => c = "-"%char \/ digit_of c <> None
  end.

(** The exact length of a value's text. *)
Definition char_length (c : ascii) : nat :=
  String.length (write_char c EmptyString).

Fixpoint chars_length (s : string) : nat :=
  match s with
  | EmptyString => O
  | String c r => (char_length c + chars_length r)%nat
  end.

Definition int_length (i : Decimal.int) : nat :=
  match i with
  | Pos d => nb_digits d
  | Neg d => S (nb_digits d)
  end.

Fixpoint text_length (v : json) : nat :=
  match v with
  | JNull => 4
  | JBool true => 4
  | JBool false => 5
  | JNum n => int_length (Z.to_int n)
  | JStr s => S (S (chars_length s))
  | JArr l =>
      S (S ((fix items (l : list json) : nat :=
               match l with
               | [] => O
               | x :: r =>
                   (text_length x + match r with [] => O | _ :: _ => S (items r) end)%nat
               end) l))
  | JObj o =>
      S (S ((fix members (o : list (string * json)) : nat :=
               match o with
               | [] => O
               | (key, x) :: r =>
                   (S (S (chars_length key)) + 1 + text_length x
                    + match r with [] => O | _ :: _ => S (members r) end)%nat
               end) o))
  end.

Fixpoint items_length (l : list json) : nat :=
  match l with
  | [] => O
  | x :: r =>
      (text_length x + match r with [] => O | _ :: _ => S (items_length r) end)%nat
  end.

Fixpoint members_length (o : list (string * json)) : nat :=
  match o with
  | [] => O
  | (key, x) :: r =>
      (S (S (chars_length key)) + 1 + text_length x
       + match r with [] => O | _ :: _ => S (members_length r) end)%nat
  end.

End Json.

(** ** JavaScript values and exceptions *)

(** The result of a property read: [None] is [undefined]. *)
Definition jsval : Type := option json.

(** [o[k]] on a property list; of two entries with one name the later one
    is the property's value, as [JSON.parse] keeps the last duplicate. *)
Definition prop (k : string) (o : list (string * json)) : jsval :=
  fold_left (fun acc kv => if String.eqb (fst kv) k then Some (snd kv) else acc)
    o None.

(** ToBoolean. *)
Definition truthy (v : jsval) : bool :=
  match v with
  | None | Some JNull | Some (JBool false) | Some (JNum 0) => false
  | Some (JStr s) => negb (String.eqb s EmptyString)
  | Some _ => true
  end.

(** [v === n] for a number [n]. *)
Definition strict_eq_num (v : jsval) (n : Z) : bool :=
  match v with
  | Some (JNum m) => m =? n
  | _ => false
  end.

(** [v === s] for a string [s]. *)
Definition strict_eq_str (v : jsval) (s : string) : bool :=
  match v with
  | Some (JStr t) => String.eqb t s
  | _ => false
  end.

(** [Array.prototype.slice(start)]: a negative [start] counts from the end,
    and [slice(-0)] is [slice(0)], the whole array. *)
Definition slice_from {A : Type} (start : Z) (l : list A) : list A :=
  let len := Z.of_nat (length l) in
  let k := if start <? 0 then Z.max (len + start) 0 else Z.min start len in
  drop (Z.to_nat k) l.

Inductive exn : Type :=
| SyntaxError
| TypeError
| QuotaExceededError.

Inductive outcome (A : Type) : Type :=
| Return (a : A)
| Throw (e : exn).
Arguments Return {A} a.
Arguments Throw {A} e.

(** Sequencing, for the two kinds of effectful code below. *)
Class Bind (M : Type -> Type) : Type :=
  bind : forall {A B : Type}, M A -> (A -> M B) -> M B.

Notation "x <- m ;; k" := (bind m (fun x => k))
  (at level 100, m at next level, right associativity,
   format "'[v' x  <-  m  ;;  '/' k ']'").

(** Computations over [localStorage] that may throw. *)
Definition js (A : Type) : Type := gmap string string -> outcome A * gmap string string.

#[export] Instance js_ret : MRet js := fun A a st => (Return a, st).

#[export] Instance js_bind : Bind js := fun A B m f st =>
  match m st with
  | (Return a, st') => f a st'
  | (Throw e, st') => (Throw e, st')
  end.

Definition throw {A : Type} (e : exn) : js A := fun st => (Throw e, st).

(** [try { m } catch (e) { h e }]. *)
Definition try_catch {A : Type} (m : js A) (h : exn -> js A) : js A := fun st =>
  match m st with
  | (Return a, st') => (Return a, st')
  | (Throw e, st') => h e st'
  end.

(** [v.k]: a property read throws on [null], and is [undefined] on a value
    that is no object (none of the names read here is a property of a
    string, number, boolean or array). *)
Definition get (v : json) (k : string) : js jsval :=
  match v with
  | JNull => throw TypeError
  | JObj o => mret (prop k o)
  | _ => mret None
  end.

Definition JSON_parse (s : string) : js json :=
  match Json.parse s with
  | Some v => mret v
  | None => throw SyntaxError
  end.

Definition JSON_stringify (v : json) : string := Json.stringify v.

(** ** config.js *)

Record config : Type := {
  MAX_MESSAGE_BYTES : Z;
  MAX_MESSAGES : Z;
  STORAGE_MAX_BYTES : Z;
  STORAGE_MAX_AGE_DAYS : Z
}.

Definition default_config : config := {|
  MAX_MESSAGE_BYTES := 16 * 1024 * 1024;
  MAX_MESSAGES := 100;
  STORAGE_MAX_BYTES := 5 * 1024 * 1024;
  STORAGE_MAX_AGE_DAYS := 7
|}.

(** [cfg && Number.isFinite(cfg.k)], giving the number. *)
Definition finite_field (cfg : json) (k : string) : option Z :=
  match cfg with
  | JObj o => match prop k o with Some (JNum n) => Some n | _ => None end
  | _ => None
  end.

(** The numeric settings of [applyServerConfig]. *)
Definition applyServerConfig (cfg : json) (c : config) : config :=
  let c1 :=
    match finite_field cfg "maxMessageBytes" with
    | Some n =>
        {| MAX_MESSAGE_BYTES := n; MAX_MESSAGES := MAX_MESSAGES c;
           STORAGE_MAX_BYTES := STORAGE_MAX_BYTES c;
           STORAGE_MAX_AGE_DAYS := STORAGE_MAX_AGE_DAYS c |}
    | None => c
    end in
  let c2 :=
    match finite_field cfg "maxMessages" with
    | Some n =>
        if 0 <? n then
          {| MAX_MESSAGE_BYTES := MAX_MESSAGE_BYTES c1;
             MAX_MESSAGES := Z.max 10 (Z.min 1000 n);
             STORAGE_MAX_BYTES := STORAGE_MAX_BYTES c1;
             STORAGE_MAX_AGE_DAYS := STORAGE_MAX_AGE_DAYS c1 |}
        else c1
    | None => c1
    end in
  let c3 :=
    match finite_field cfg "storageMaxBytes" with
    | Some n =>
        if 0 <? n then
          {| MAX_MESSAGE_BYTES := MAX_MESSAGE_BYTES c2;
             MAX_MESSAGES := MAX_MESSAGES c2;
             STORAGE_MAX_BYTES := Z.max (1024 * 1024) n;
             STORAGE_MAX_AGE_DAYS := STORAGE_MAX_AGE_DAYS c2 |}
        else c2
    | None => c2
    end in
  match finite_field cfg "storageMaxAgeDays" with
  | Some n =>
      if 0 <? n then
        {| MAX_MESSAGE_BYTES := MAX_MESSAGE_BYTES c3;
           MAX_MESSAGES := MAX_MESSAGES c3;
           STORAGE_MAX_BYTES := STORAGE_MAX_BYTES c3;
           STORAGE_MAX_AGE_DAYS := Z.max 1 n |}
      else c3
  | None => c3
  end.

(** What the defaults and every server override keep true. *)
Record config_ok (c : config) : Prop := {
  messages_range : 10 <= MAX_MESSAGES c <= 1000;
  bytes_floor : 1024 * 1024 <= STORAGE_MAX_BYTES c;
  age_floor : 1 <= STORAGE_MAX_AGE_DAYS c
}.

(** ** storage.js *)

Definition message : Type := list (string * json).

(** [message.type === t]. *)
Definition type_is (m : message) (t : string) : bool :=
  strict_eq_str (prop "type" m) t.

(** Text and status messages are kept whole; a file message keeps every
    property but [data]; any other message is not stored. *)
Definition prepareMessageForStorage (m : message) : option message :=
  if type_is m "text" || type_is m "status" then Some m
  else if type_is m "file" then
    Some (filter (fun kv => fst kv <> "data") m)
  else None.

Definition STORAGE_PREFIX : string := "lanchat_room_".
Definition STORAGE_VERSION : Z := 1.

Definition getStorageKey (roomId : string) : string :=
  STORAGE_PREFIX +:+ roomId.

(** [key.startsWith(p)] together with [key.substring(p.length)]. *)
Fixpoint strip_prefix (p s : string) : option string :=
  match p with
  | EmptyString => Some s
  | String a p' =>
      match s with
      | EmptyString => None
      | String b s' => if Ascii.eqb a b then strip_prefix p' s' else None
      end
  end.

(** *** The browser's store *)

Definition getItem (key : string) : js (option string) :=
  fun st => (Return (st !! key), st).

Definition removeItem (key : string) : js unit :=
  fun st => (Return tt, delete key st).

(** [localStorage.setItem]: the browser decides whether the store with the
    new item is within its quota ([accepts]); a refused write throws
    [QuotaExceededError] and changes nothing. *)
Definition setItem (accepts : gmap string string -> bool)
    (key value : string) : js unit :=
  fun st =>
    if accepts (<[key := value]> st) then (Return tt, <[key := value]> st)
    else (Throw QuotaExceededError, st).

(** Bytes in use: two per UTF-16 code unit of every stored value. *)
Definition getStorageUsage (st : gmap string string) : Z :=
  map_fold (fun _ v total => total + Z.of_nat (String.length v) * 2) 0 st.

(** The bytes one stored value counts for. *)
Definition item_bytes (v : string) : Z := Z.of_nat (String.length v) * 2.

(** The room id of a key of this module. *)
Definition room_of_key (key : string) : option string :=
  strip_prefix STORAGE_PREFIX key.

(** Whether [cleanupNonExistentRooms] keeps the item: it is no record of
    this module, or its room is [currentRoom] or one of [existingRooms]. *)
Definition kept_room (existingRooms : list string) (currentRoom key : string)
  : bool :=
  match room_of_key key with
  | Some roomId => bool_decide (roomId ∈ currentRoom :: existingRooms)
  | None => true
  end.

Definition cleanupNonExistentRooms (existingRooms : list string)
    (currentRoom : string) (st : gmap string string) : gmap string string :=
  filter (fun kv => kept_room existingRooms currentRoom (fst kv) = true) st.

(** ToNumber of a truthy timestamp, [None] for NaN.  Records written by
    [saveRoomMessages] carry a number; for a foreign record the coercion is
    modelled for booleans and for strings in the writer's integer form, and
    taken as NaN otherwise. *)
Definition to_number (v : json) : option Z :=
  match v with
  | JNum n => Some n
  | JBool true => Some 1
  | JStr s =>
      match Json.read_number s with
      | Some (JNum n, EmptyString) => Some n
      | _ => None
      end
  | _ => None
  end.

(** [data.timestamp && now - data.timestamp > maxAge], for a threshold of
    [maxAge] milliseconds. *)
Definition expired (now : Z) (maxAge : Q) (data : json) : bool :=
  match data with
  | JObj o =>
      let ts := prop "timestamp" o in
      truthy ts &&
      match ts with
      | Some v =>
          match to_number v with
          | Some t => negb (Qle_bool (inject_Z (now - t)) maxAge)
          | None => false
          end
      | None => false
      end
  | _ => false
  end.

(** Whether [cleanupExpiredData] removes the item: it is a record of this
    module that is expired, or whose text does not parse, or that is
    [null] (reading [data.timestamp] throws). *)
Definition purged (now : Z) (maxAge : Q) (key value : string) : bool :=
  match room_of_key key with
  | None => false
  | Some _ =>
      match Json.parse value with
      | None => true
      | Some JNull => true
      | Some data => expired now maxAge data
      end
  end.

Definition cleanupExpiredData (now : Z) (maxAge : Q)
    (st : gmap string string) : gmap string string :=
  filter (fun kv => purged now maxAge (fst kv) (snd kv) = false) st.

(** The default threshold, [STORAGE_MAX_AGE_DAYS] days in milliseconds. *)
Definition default_maxAge (c : config) : Q :=
  inject_Z (STORAGE_MAX_AGE_DAYS c * 24 * 60 * 60 * 1000).

Section storage.
Variable c : config.
(** The browser's quota decision. *)
Variable accepts : gmap string string -> bool.
(** [Date.now()]; the clock does not advance within one call. *)
Variable now : Z.

(** [allMessages.length > MAX_MESSAGES ? allMessages.slice(-MAX_MESSAGES)
    : allMessages], on whatever the record holds. *)
Definition recent (allMessages : json) : json :=
  match allMessages with
  | JArr l =>
      if MAX_MESSAGES c <? Z.of_nat (length l)
      then JArr (slice_from (- MAX_MESSAGES c) l) else allMessages
  | JStr s =>
      if MAX_MESSAGES c <? Z.of_nat (String.length s)
      then JStr (string_of_list_ascii
                   (slice_from (- MAX_MESSAGES c) (list_ascii_of_string s)))
      else allMessages
  | _ => allMessages
  end.

Definition loadRoomMessages_body (roomId : string) : js json :=
  let key := getStorageKey roomId in
  stored <- getItem key ;;
  match stored with
  | None | Some EmptyString => mret (JArr [])
  | Some text =>
      data <- JSON_parse text ;;
      version <- get data "version" ;;
      if negb (truthy version) || negb (strict_eq_num version STORAGE_VERSION)
      then _ <- removeItem key ;; mret (JArr [])
      else
        messages <- get data "messages" ;;
        let allMessages :=
          match messages with
          | Some v => if truthy messages then v else JArr []
          | None => JArr []
          end in
        mret (recent allMessages)
  end.

Definition loadRoomMessages (roomId : string) : js json :=
  try_catch (loadRoomMessages_body roomId) (fun _ => mret (JArr [])).

Definition storable (messages : list message) : list message :=
  omap prepareMessageForStorage messages.

(** The record object [saveRoomMessages] serialises. *)
Definition record (roomId : string) (finalMessages : list message) : json :=
  JObj [("version", JNum STORAGE_VERSION);
        ("roomId", JStr roomId);
        ("messages", JArr (map JObj finalMessages));
        ("timestamp", JNum now)].

Definition over_budget (st : gmap string string) (jsonString : string) : bool :=
  STORAGE_MAX_BYTES c <? getStorageUsage st + Z.of_nat (String.length jsonString) * 2.

Definition saveRoomMessages_body (roomId : string) (messages : list message)
  : js unit :=
  let storableMessages := storable messages in
  let key := getStorageKey roomId in
  let jsonString := JSON_stringify (record roomId storableMessages) in
  fun st =>
    if over_budget st jsonString then
      let st1 := cleanupExpiredData now (default_maxAge c) st in
      if over_budget st1 jsonString then
        let keepCount := Z.of_nat (length storableMessages) / 2 in
        let finalMessages := slice_from (- keepCount) storableMessages in
        setItem accepts key (JSON_stringify (record roomId finalMessages)) st1
      else setItem accepts key jsonString st1
    else setItem accepts key jsonString st.

(** A quota error is thrown again for the caller; any other error is
    logged and swallowed. *)
Definition saveRoomMessages (roomId : string) (messages : list message)
  : js unit :=
  try_catch (saveRoomMessages_body roomId messages)
    (fun error =>
       match error with
       | QuotaExceededError => throw QuotaExceededError
       | _ => mret tt
       end).

End storage.

(** ** What [saveRoomMessages] writes and [loadRoomMessages] reads *)

(** The persistable subset, in the specification's words: the messages of
    type text, status or file, a file message reduced to its metadata. *)
Definition persistable (m : message) : bool :=
  type_is m "text" || type_is m "status" || type_is m "file".

Definition metadata_only (m : message) : message :=
  if type_is m "file" then filter (fun kv => fst kv <> "data") m else m.

Definition persistable_subset (M : list message) : list message :=
  metadata_only <$> filter (fun m => persistable m = true) M.

(** The messages of the record stored for a room, when the stored text is a
    record with an array of messages. *)
Definition persisted_messages (roomId : string) (st : gmap string string)
  : option (list json) :=
  match st !! getStorageKey roomId with
  | Some text =>
      match Json.parse text with
      | Some (JObj o) =>
          match prop "messages" o with
          | Some (JArr l) => Some l
          | _ => None
          end
      | _ => None
      end
  | None => None
  end.

(** The message list [saveRoomMessages] serialises: everything storable,
    or its most recent half when the estimate is over budget before and
    after the sweep of expired records. *)
Definition kept_messages (c : config) (now : Z) (roomId : string) (M : list message)
    (st : gmap string string) : list message :=
  let jsonString := JSON_stringify (record now roomId (storable M)) in
  if over_budget c st jsonString
     && over_budget c (cleanupExpiredData now (default_maxAge c) st) jsonString
  then slice_from (- (Z.of_nat (length (storable M)) / 2)) (storable M)
  else storable M.

(** The store [saveRoomMessages] writes into: swept of expired records
    when the first estimate is over budget. *)
Definition swept_store (c : config) (now : Z) (roomId : string) (M : list message)
    (st : gmap string string) : gmap string string :=
  if over_budget c st (JSON_stringify (record now roomId (storable M)))
  then cleanupExpiredData now (default_maxAge c) st else st.


(** A browser that stores up to [units] UTF-16 code units, keys and values
    counted together; common browsers allow 5 * 1024 * 1024. *)
Definition within_quota (units : Z) (st : gmap string string) : bool :=
  map_fold (fun k v n => n + Z.of_nat (String.length k) + Z.of_nat (String.length v))
    0 st <=? units.

(** ** state.js, room.js *)

(** [currentRoomMessages.push(message)]. *)
Definition addCurrentRoomMessage (m : message) (currentRoomMessages : list message)
  : list message :=
  currentRoomMessages ++ [m].

Section room.
Variable c : config.
Variable accepts : gmap string string -> bool.
Variable now : Z.

(** [saveCurrentRoomMessages]: the save in a [try] whose [catch] logs
    whatever was thrown and returns. *)
Definition saveCurrentRoomMessages (roomId : string)
    (currentRoomMessages : list message) : js unit :=
  try_catch (saveRoomMessages c accepts now roomId currentRoomMessages)
    (fun _ => mret tt).

(** ** main.js: the [message] handler *)

(** What the handler's storage step logs. *)
Inductive save_report : Type :=
| SaveQuiet          (* the [try] block ran to its end *)
| SavedAfterCleanup  (* a retry succeeded after a cleanup step *)
| SaveAbandoned.     (* every cleanup step failed *)

(** [try { m; <success> } catch (retryError) { <go on> }]. *)
Definition attempt (m : js unit) : js bool :=
  try_catch (A := bool) (_ <- m ;; mret true) (fun _ => mret false).

Definition lift (f : gmap string string -> gmap string string) : js unit :=
  fun st => (Return tt, f st).

(** The loop over [ageDivider]: sweep records older than
    [STORAGE_MAX_AGE_DAYS / ageDivider] (the number is handed to
    [cleanupExpiredData], which reads its argument as milliseconds), retry
    the save, double the divider on failure, while it is at most 128. *)
Fixpoint age_loop (fuel : nat) (ageDivider : Z) (currentRoom : string)
    (messages : list message) : js bool :=
  match fuel with
  | O => mret false
  | S fuel =>
      if ageDivider <=? 128 then
        let maxAge := (inject_Z (STORAGE_MAX_AGE_DAYS c) / inject_Z ageDivider)%Q in
        _ <- lift (cleanupExpiredData now maxAge) ;;
        saved <- attempt (saveCurrentRoomMessages currentRoom messages) ;;
        if saved then mret true
        else age_loop fuel (ageDivider * 2) currentRoom messages
      else mret false
  end.

(** The body of [catch (error)] for a quota error. *)
Definition escalate (existingRooms : list string) (currentRoom : string)
    (messages : list message) : js save_report :=
  _ <- lift (cleanupNonExistentRooms existingRooms currentRoom) ;;
  saved <- attempt (saveCurrentRoomMessages currentRoom messages) ;;
  if saved then mret SavedAfterCleanup
  else
    success <- age_loop 8 2 currentRoom messages ;;
    mret (if success then SavedAfterCleanup else SaveAbandoned).

(** The storage part of the [message] handler: the message is appended to
    the room's list, then saved. *)
Definition message_handler (existingRooms : list string) (currentRoom : string)
    (currentRoomMessages : list message) (m : message) : js save_report :=
  let messages := addCurrentRoomMessage m currentRoomMessages in
  try_catch (A := save_report)
    (_ <- saveCurrentRoomMessages currentRoom messages ;; mret SaveQuiet)
    (fun error =>
       match error with
       | QuotaExceededError => escalate existingRooms currentRoom messages
       | _ => mret SaveQuiet
       end).

End room.

(** ** transport.js *)

Definition RETRY_BASE_MS : Z := 1000.
Definition RETRY_MAX_MS : Z := 8000.

Inductive readyState : Type := CONNECTING | OPEN | CLOSING | CLOSED.

Inductive scope : Type := Lobby | Room.

(** A [WebSocket] the transport has created: its scope, the [roomId] its
    listeners captured (empty for the lobby) and its [readyState]. *)
Record socket : Type := {
  sock_scope : scope;
  sock_room : string;
  ready : readyState
}.

(** A pending [setTimeout] callback of [_scheduleReconnect] with the
    [retry] and [roomId] it captured. *)
Record timer : Type := {
  timer_delay : Z;
  timer_room : string
}.

Inductive connection_state : Type := Connected | Reconnecting.

Inductive status_text : Type :=
| EnterUsername
| SendFailText
| TextTooLong (bytes max : Z).

(** What [_emit] hands to the registered handlers. *)
Inductive event : Type :=
| EvRoomSwitch (roomId : string)
| EvOpened (roomId : string)
| EvClosed
| EvError (m : json)
| EvRooms (list : json)
| EvUsers (list : json)
| EvMessage (m : json)
| EvSendFail
| EvConnection (s : scope) (state : connection_state)
    (delay : option Z) (roomId : option string).

(** Calls that leave the transport: to the handlers, the browser and the
    page.  [WsSend ws payload] is the call [wsSend(ws, payload)] of
    utils.js, which is not among the sources, on the handle [ws]. *)
Inductive effect : Type :=
| Emit (e : event)
| NewWebSocket (id : nat) (s : scope) (roomId : string)
| WsSend (ws : option nat) (payload : json)
| WsClose (id : nat)
| SetTimeout (s : scope) (delay : Z)
| ClearTimeout (s : scope)
| StatusMessage (t : status_text)
| FocusUsername
| ClearInput
| ClearInputLater.

(** The fields of a [Transport], the sockets it has created (a socket is
    named by its position), and the user name [getUsername()] returns. *)
Record transport : Type := {
  username : string;
  sockets : list socket;
  lobbyWs : option nat;
  roomWs : option nat;
  currentRoom : string;
  _lobbyRetry : Z;
  _roomRetry : Z;
  _lobbyTimer : option timer;
  _roomTimer : option timer;
  _roomManualClose : bool
}.

(** [new Transport(getUsername, handlers)]. *)
Definition constructor (name : string) : transport := {|
  username := name;
  sockets := [];
  lobbyWs := None;
  roomWs := None;
  currentRoom := EmptyString;
  _lobbyRetry := RETRY_BASE_MS;
  _roomRetry := RETRY_BASE_MS;
  _lobbyTimer := None;
  _roomTimer := None;
  _roomManualClose := false
|}.

Definition set_username (v : string) (t : transport) : transport :=
  {| username := v; sockets := sockets t; lobbyWs := lobbyWs t;
     roomWs := roomWs t; currentRoom := currentRoom t;
     _lobbyRetry := _lobbyRetry t; _roomRetry := _roomRetry t;
     _lobbyTimer := _lobbyTimer t; _roomTimer := _roomTimer t;
     _roomManualClose := _roomManualClose t |}.

Definition set_sockets (v : list socket) (t : transport) : transport :=
  {| username := username t; sockets := v; lobbyWs := lobbyWs t;
     roomWs := roomWs t; currentRoom := currentRoom t;
     _lobbyRetry := _lobbyRetry t; _roomRetry := _roomRetry t;
     _lobbyTimer := _lobbyTimer t; _roomTimer := _roomTimer t;
     _roomManualClose := _roomManualClose t |}.

Definition set_lobbyWs (v : option nat) (t : transport) : transport :=
  {| username := username t; sockets := sockets t; lobbyWs := v;
     roomWs := roomWs t; currentRoom := currentRoom t;
     _lobbyRetry := _lobbyRetry t; _roomRetry := _roomRetry t;
     _lobbyTimer := _lobbyTimer t; _roomTimer := _roomTimer t;
     _roomManualClose := _roomManualClose t |}.

Definition set_roomWs (v : option nat) (t : transport) : transport :=
  {| username := username t; sockets := sockets t; lobbyWs := lobbyWs t;
     roomWs := v; currentRoom := currentRoom t;
     _lobbyRetry := _lobbyRetry t; _roomRetry := _roomRetry t;
     _lobbyTimer := _lobbyTimer t; _roomTimer := _roomTimer t;
     _roomManualClose := _roomManualClose t |}.

Definition set_currentRoom (v : string) (t : transport) : transport :=
  {| username := username t; sockets := sockets t; lobbyWs := lobbyWs t;
     roomWs := roomWs t; currentRoom := v;
     _lobbyRetry := _lobbyRetry t; _roomRetry := _roomRetry t;
     _lobbyTimer := _lobbyTimer t; _roomTimer := _roomTimer t;
     _roomManualClose := _roomManualClose t |}.

Definition set_lobbyRetry (v : Z) (t : transport) : transport :=
  {| username := username t; sockets := sockets t; lobbyWs := lobbyWs t;
     roomWs := roomWs t; currentRoom := currentRoom t;
     _lobbyRetry := v; _roomRetry := _roomRetry t;
     _lobbyTimer := _lobbyTimer t; _roomTimer := _roomTimer t;
     _roomManualClose := _roomManualClose t |}.

Definition set_roomRetry (v : Z) (t : transport) : transport :=
  {| username := username t; sockets := sockets t; lobbyWs := lobbyWs t;
     roomWs := roomWs t; currentRoom := currentRoom t;
     _lobbyRetry := _lobbyRetry t; _roomRetry := v;
     _lobbyTimer := _lobbyTimer t; _roomTimer := _roomTimer t;
     _roomManualClose := _roomManualClose t |}.

Definition set_lobbyTimer (v : option timer) (t : transport) : transport :=
  {| username := username t; sockets := sockets t; lobbyWs := lobbyWs t;
     roomWs := roomWs t; currentRoom := currentRoom t;
     _lobbyRetry := _lobbyRetry t; _roomRetry := _roomRetry t;
     _lobbyTimer := v; _roomTimer := _roomTimer t;
     _roomManualClose := _roomManualClose t |}.

Definition set_roomTimer (v : option timer) (t : transport) : transport :=
  {| username := username t; sockets := sockets t; lobbyWs := lobbyWs t;
     roomWs := roomWs t; currentRoom := currentRoom t;
     _lobbyRetry := _lobbyRetry t; _roomRetry := _roomRetry t;
     _lobbyTimer := _lobbyTimer t; _roomTimer := v;
     _roomManualClose := _roomManualClose t |}.

Definition set_roomManualClose (v : bool) (t : transport) : transport :=
  {| username := username t; sockets := sockets t; lobbyWs := lobbyWs t;
     roomWs := roomWs t; currentRoom := currentRoom t;
     _lobbyRetry := _lobbyRetry t; _roomRetry := _roomRetry t;
     _lobbyTimer := _lobbyTimer t; _roomTimer := _roomTimer t;
     _roomManualClose := v |}.

(** A method or listener: it changes the transport and makes calls. *)
Definition act (A : Type) : Type := transport -> A * transport * list effect.

#[export] Instance act_ret : MRet act := fun A a t => (a, t, []).

#[export] Instance act_bind : Bind act := fun A B m f t =>
  let '(a, t1, e1) := m t in
  let '(b, t2, e2) := f a t1 in
  (b, t2, e1 ++ e2).

Definition read {A : Type} (f : transport -> A) : act A := fun t => (f t, t, []).
Definition write (f : transport -> transport) : act unit := fun t => (tt, f t, []).
Definition call (e : effect) : act unit := fun t => (tt, t, [e]).
Definition skip : act unit := mret tt.

(** The transport and the calls after running [m]. *)
Definition run (m : act unit) (t : transport) : transport * list effect :=
  let '(_, t', e) := m t in (t', e).

Definition nonempty (s : string) : bool := negb (String.eqb s EmptyString).

(** Modelled from the spec: [wsOpen] of utils.js, which is not among the
    sources; the channel is open when the handle is present and its
    [readyState] is [OPEN], as [isRoomOpen] of room.js tests it. *)
Definition wsOpen (ws : option nat) (t : transport) : bool :=
  match ws with
  | Some i =>
      match sockets t !! i with
      | Some {| ready := OPEN |} => true
      | _ => false
      end
  | None => false
  end.

(** [room.js]. *)
Definition isRoomOpen (t : transport) : bool := wsOpen (roomWs t) t.

(** [ws.close()]: an open or connecting socket starts closing. *)
Definition close_socket (i : nat) : act unit :=
  _ <- write (fun t =>
       set_sockets
         (alter (fun s => {| sock_scope := sock_scope s; sock_room := sock_room s;
                             ready := match ready s with
                                      | CLOSED => CLOSED
                                      | _ => CLOSING
                                      end |}) i (sockets t)) t) ;;
  call (WsClose i).

Definition _emit (e : event) : act unit := call (Emit e).

Definition _emitConnection (s : scope) (state : connection_state)
    (delay : option Z) (roomId : option string) : act unit :=
  _emit (EvConnection s state delay roomId).

Definition _clearTimer (type : scope) : act unit :=
  tm <- read (match type with Lobby => _lobbyTimer | Room => _roomTimer end) ;;
  match tm with
  | Some _ =>
      _ <- call (ClearTimeout type) ;;
      write (match type with
             | Lobby => set_lobbyTimer None
             | Room => set_roomTimer None
             end)
  | None => skip
  end.

(** [new WebSocket(url)]: the new socket is connecting. *)
Definition new_socket (s : scope) (roomId : string) : act nat :=
  id <- read (fun t => length (sockets t)) ;;
  _ <- write (fun t =>
       set_sockets (sockets t ++ [{| sock_scope := s; sock_room := roomId;
                                     ready := CONNECTING |}]) t) ;;
  _ <- call (NewWebSocket id s roomId) ;;
  mret id.

Definition _openLobbySocket : act unit :=
  id <- new_socket Lobby EmptyString ;;
  write (set_lobbyWs (Some id)).

Definition _openRoomSocket (roomId : string) : act unit :=
  id <- new_socket Room roomId ;;
  write (set_roomWs (Some id)).

(** [roomId] is empty for the lobby, where the source passes none. *)
Definition _scheduleReconnect (type : scope) (roomId : string) : act unit :=
  let isLobby := match type with Lobby => true | Room => false end in
  ws <- read (if isLobby then lobbyWs else roomWs) ;;
  tm <- read (if isLobby then _lobbyTimer else _roomTimer) ;;
  retry <- read (if isLobby then _lobbyRetry else _roomRetry) ;;
  open <- read (wsOpen ws) ;;
  if bool_decide (is_Some tm) || open || (negb isLobby && negb (nonempty roomId))
  then skip
  else
    _ <- _emitConnection type Reconnecting (Some retry)
          (if nonempty roomId then Some roomId else None) ;;
    _ <- call (SetTimeout type retry) ;;
    write ((if isLobby then set_lobbyTimer else set_roomTimer)
             (Some {| timer_delay := retry; timer_room := roomId |})).

(** The callback handed to [setTimeout], for the pending timer [tm]. *)
Definition timer_callback (type : scope) (tm : timer) : act unit :=
  let isLobby := match type with Lobby => true | Room => false end in
  _ <- write ((if isLobby then set_lobbyTimer else set_roomTimer) None) ;;
  _ <- write ((if isLobby then set_lobbyRetry else set_roomRetry)
               (Z.min (timer_delay tm * 2) RETRY_MAX_MS)) ;;
  name <- read username ;;
  if isLobby || nonempty name then
    if isLobby then _openLobbySocket else _openRoomSocket (timer_room tm)
  else skip.

Definition connectLobby : act unit :=
  ws <- read lobbyWs ;;
  open <- read (wsOpen ws) ;;
  if open then skip
  else
    _ <- _clearTimer Lobby ;;
    _openLobbySocket.

Definition connectRoom (roomId : string) : act unit :=
  name <- read username ;;
  if negb (nonempty name) then skip
  else
    ws <- read roomWs ;;
    open <- read (wsOpen ws) ;;
    if open then
      current <- read currentRoom ;;
      if String.eqb current roomId then skip
      else
        _ <- write (set_roomManualClose true) ;;
        _ <- match ws with Some i => close_socket i | None => skip end ;;
        write (set_currentRoom roomId)
    else
      _ <- write (set_currentRoom roomId) ;;
      _ <- _emit (EvRoomSwitch roomId) ;;
      _ <- _clearTimer Room ;;
      _openRoomSocket roomId.

Definition joinRoom (roomId : string) : act unit :=
  if negb (nonempty roomId) then skip else connectRoom roomId.

(** [wsSend] is a call on the socket handle. *)
Definition send (payload : json) : act unit :=
  ws <- read roomWs ;;
  open <- read (wsOpen ws) ;;
  if open then call (WsSend ws payload) else _emit EvSendFail.

(** *** Listeners of the lobby socket *)

Definition lobby_open : act unit :=
  _ <- write (set_lobbyRetry RETRY_BASE_MS) ;;
  _emitConnection Lobby Connected None None.

(** [m.list || []]. *)
Definition list_or_empty (o : list (string * json)) : json :=
  match prop "list" o with
  | Some v => if truthy (Some v) then v else JArr []
  | None => JArr []
  end.

(** The [message] listener; a frame that is not JSON, or is [null], throws
    inside the [try] and is dropped.  A [created] frame whose [room] is a
    string connects to it. *)
Definition lobby_message (data : string) : act unit :=
  match Json.parse data with
  | Some (JObj o) =>
      if strict_eq_str (prop "type" o) "error" then _emit (EvError (JObj o))
      else if strict_eq_str (prop "type" o) "rooms" then
        _emit (EvRooms (list_or_empty o))
      else if strict_eq_str (prop "type" o) "created" && truthy (prop "room" o) then
        match prop "room" o with
        | Some (JStr r) => connectRoom r
        | _ => skip
        end
      else skip
  | _ => skip
  end.

Definition lobby_close : act unit :=
  _ <- write (set_lobbyWs None) ;;
  _scheduleReconnect Lobby EmptyString.

(** *** Listeners of a room socket opened for [roomId] *)

Definition room_open (roomId : string) : act unit :=
  _ <- write (set_roomRetry RETRY_BASE_MS) ;;
  name <- read username ;;
  if nonempty name then
    ws <- read roomWs ;;
    _ <- call (WsSend ws (JObj [("username", JStr name)])) ;;
    _ <- _emit (EvOpened roomId) ;;
    _emitConnection Room Connected None (Some roomId)
  else
    ws <- read roomWs ;;
    match ws with
    | Some i => close_socket i
    | None => skip
    end.

Definition room_message (data : string) : act unit :=
  match Json.parse data with
  | Some (JObj o) =>
      if strict_eq_str (prop "type" o) "error" then _emit (EvError (JObj o))
      else if strict_eq_str (prop "type" o) "users" then
        _emit (EvUsers (list_or_empty o))
      else _emit (EvMessage (JObj o))
  | Some JNull | None => skip
  | Some m => _emit (EvMessage m)
  end.

(** The object of the error event for a terminal close code. *)
Definition closed_error (code : string) (reason : string) : json :=
  JObj [("code", JStr code); ("text", JStr reason)].

(** The [close] listener, for a close event with [code] and [reason]. *)
Definition room_close (code : Z) (reason : string) : act unit :=
  _ <- write (set_roomWs None) ;;
  _ <- _emit EvClosed ;;
  _ <- (if code =? 1008 then _emit (EvError (closed_error "ws_closed_1008" reason))
       else if code =? 1009 then
         _emit (EvError (closed_error "ws_closed_1009" reason))
       else skip) ;;
  manual <- read _roomManualClose ;;
  _ <- write (set_roomManualClose false) ;;
  current <- read currentRoom ;;
  if manual && nonempty current then
    _ <- _emit (EvRoomSwitch current) ;;
    _ <- _clearTimer Room ;;
    _openRoomSocket current
  else
    let shouldRetry :=
      negb manual && (negb (code =? 1008) && negb (code =? 1009)) in
    if shouldRetry && nonempty current then _scheduleReconnect Room current
    else skip.

(** *** The browser and the page drive the transport *)

Inductive input : Type :=
| CallConnectLobby
| CallConnectRoom (roomId : string)
| CallJoinRoom (roomId : string)
| CallSend (payload : json)
| UsernameSet (name : string)
| SocketOpens (i : nat)
| SocketMessage (i : nat) (data : string)
| SocketCloses (i : nat) (code : Z) (reason : string)
| TimerFires (s : scope).

Definition set_ready (i : nat) (r : readyState) : act unit :=
  write (fun t =>
    set_sockets
      (alter (fun s => {| sock_scope := sock_scope s; sock_room := sock_room s;
                          ready := r |}) i (sockets t)) t).

(** One turn of the event loop.  The browser opens only a connecting
    socket, delivers frames only on an open one, closes a socket once, and
    fires only a pending timer; anything else changes nothing. *)
Definition step (i : input) : act unit :=
  match i with
  | CallConnectLobby => connectLobby
  | CallConnectRoom roomId => connectRoom roomId
  | CallJoinRoom roomId => joinRoom roomId
  | CallSend payload => send payload
  | UsernameSet name => write (set_username name)
  | SocketOpens k =>
      s <- read (fun t => sockets t !! k) ;;
      match s with
      | Some {| sock_scope := sc; sock_room := roomId; ready := CONNECTING |} =>
          _ <- set_ready k OPEN ;;
          match sc with Lobby => lobby_open | Room => room_open roomId end
      | _ => skip
      end
  | SocketMessage k data =>
      s <- read (fun t => sockets t !! k) ;;
      match s with
      | Some {| sock_scope := sc; ready := OPEN |} =>
          match sc with Lobby => lobby_message data | Room => room_message data end
      | _ => skip
      end
  | SocketCloses k code reason =>
      s <- read (fun t => sockets t !! k) ;;
      match s with
      | Some {| ready := CLOSED |} | None => skip
      | Some {| sock_scope := sc |} =>
          _ <- set_ready k CLOSED ;;
          match sc with Lobby => lobby_close | Room => room_close code reason end
      end
  | TimerFires sc =>
      tm <- read (match sc with Lobby => _lobbyTimer | Room => _roomTimer end) ;;
      match tm with
      | Some tm => timer_callback sc tm
      | None => skip
      end
  end.

(** ** sender.js *)

Definition is_space (ch : ascii) : bool :=
  let n := N_of_ascii ch in
  ((9 <=? n) && (n <=? 13) || (n =? 32) || (n =? 160))%N.

Fixpoint trim_start (l : list ascii) : list ascii :=
  match l with
  | [] => []
  | ch :: r => if is_space ch then trim_start r else l
  end.

(** [String.prototype.trim]. *)
Definition trim (s : string) : string :=
  string_of_list_ascii
    (rev (trim_start (rev (trim_start (list_ascii_of_string s))))).

(** [ensureUsername({ autoConfirm: false, transport })]. *)
Definition ensureUsername : act bool :=
  name <- read username ;;
  if nonempty name then mret true
  else
    _ <- call (StatusMessage EnterUsername) ;;
    _ <- call FocusUsername ;;
    mret false.

Section sender.
Variable c : config.
(** [utf8ByteLength] of utils.js, which is not among the sources. *)
Variable utf8ByteLength : string -> Z.

(** [sendText], for the value of the message box. *)
Definition sendText (value : string) : act unit :=
  let v := trim value in
  named <- ensureUsername ;;
  if negb named then skip
  else
    open <- read isRoomOpen ;;
    if negb open then call (StatusMessage SendFailText)
    else if negb (nonempty v) then skip
    else
      let bytes := utf8ByteLength v in
      if MAX_MESSAGE_BYTES c <? bytes then
        call (StatusMessage (TextTooLong bytes (MAX_MESSAGE_BYTES c)))
      else
        _ <- send (JObj [("type", JStr "text"); ("text", JStr v)]) ;;
        still_open <- read isRoomOpen ;;
        if still_open then call ClearInput else call ClearInputLater.

End sender.

(** ** Runs of the transport *)

Definition ws_of (s : scope) (t : transport) : option nat :=
  match s with Lobby => lobbyWs t | Room => roomWs t end.

Definition timer_of (s : scope) (t : transport) : option timer :=
  match s with Lobby => _lobbyTimer t | Room => _roomTimer t end.

Definition retry_of (s : scope) (t : transport) : Z :=
  match s with Lobby => _lobbyRetry t | Room => _roomRetry t end.

Definition other (s : scope) : scope :=
  match s with Lobby => Room | Room => Lobby end.

Definition scope_eqb (a b : scope) : bool :=
  match a, b with
  | Lobby, Lobby | Room, Room => true
  | _, _ => false
  end.

(** The delays handed to [setTimeout] for a scope, in order. *)
Definition scheduled (s : scope) (e : list effect) : list Z :=
  omap (fun x => match x with
                 | SetTimeout s' d => if scope_eqb s s' then Some d else None
                 | _ => None
                 end) e.

(** The sockets created, in order. *)
Definition created (e : list effect) : list (nat * scope * string) :=
  omap (fun x => match x with
                 | NewWebSocket id s roomId => Some (id, s, roomId)
                 | _ => None
                 end) e.

(** Inputs in sequence. *)
Fixpoint runs (l : list input) (t : transport) : transport * list effect :=
  match l with
  | [] => (t, [])
  | i :: r =>
      let '(t1, e1) := run (step i) t in
      let '(t2, e2) := runs r t1 in
      (t2, e1 ++ e2)
  end.

(** One failed attempt of a scope: the socket the transport holds for the
    scope closes with [code], then the reconnect timer fires. *)
Definition fail_once (s : scope) (code : Z) (t : transport)
  : transport * list effect :=
  match ws_of s t with
  | Some i => runs [SocketCloses i code EmptyString; TimerFires s] t
  | None => (t, [])
  end.

(** Consecutive failed attempts, one for each close code. *)
Fixpoint fail_repeatedly (s : scope) (codes : list Z) (t : transport)
  : transport * list effect :=
  match codes with
  | [] => (t, [])
  | code :: r =>
      let '(t1, e1) := fail_once s code t in
      let '(t2, e2) := fail_repeatedly s r t1 in
      (t2, e1 ++ e2)
  end.

(** The specification's delay sequence: [d], then [min (2 * d) max], ... *)
Fixpoint delays (d : Z) (n : nat) : list Z :=
  match n with
  | O => []
  | S n => d :: delays (Z.min (d * 2) RETRY_MAX_MS) n
  end.

(** A connection or connection attempt of scope [s] is under way, no
    reconnect timer is pending and the next delay is [d]; for the room
    scope the user has a name, a room is current and no manual close is
    pending. *)
Record attempting (s : scope) (d : Z) (t : transport) : Prop := {
  attempt_socket :
    exists i sock, ws_of s t = Some i /\ sockets t !! i = Some sock
                   /\ sock_scope sock = s /\ ready sock <> CLOSED;
  attempt_timer : timer_of s t = None;
  attempt_retry : retry_of s t = d;
  attempt_room :
    s = Room ->
    _roomManualClose t = false /\ nonempty (currentRoom t) = true
    /\ nonempty (username t) = true
}.

Definition terminal (code : Z) : bool := (code =? 1008) || (code =? 1009).

(** The delays of both scopes, current and captured by pending timers, lie
    between the base and the maximum, and a pending timer's delay is at
    least the scope's current one. *)
Definition in_range (d : Z) : Prop := RETRY_BASE_MS <= d <= RETRY_MAX_MS.

Record retries_in_range (t : transport) : Prop := {
  lobby_retry_range : in_range (_lobbyRetry t);
  room_retry_range : in_range (_roomRetry t);
  lobby_timer_range :
    forall tm, _lobbyTimer t = Some tm ->
               in_range (timer_delay tm) /\ _lobbyRetry t <= timer_delay tm;
  room_timer_range :
    forall tm, _roomTimer t = Some tm ->
               in_range (timer_delay tm) /\ _roomRetry t <= timer_delay tm
}.

(** Every [setTimeout] of the calls has a delay in range. *)
Definition timeouts_in_range (e : list effect) : Prop :=
  Forall (fun x => match x with
                   | SetTimeout _ d => in_range d
                   | _ => True
                   end) e.

(** An input that is no socket opening. *)
Definition not_open (i : input) : Prop :=
  match i with
  | SocketOpens _ => False
  | _ => True
  end.

(** ** Sample inputs *)

Definition sample_text : message :=
  [("type", JStr "text"); ("text", JStr "hi"); ("username", JStr "bob")].
Definition sample_file : message :=
  [("type", JStr "file"); ("name", JStr "a.png"); ("data", JStr "AAAA")].
Definition sample_users : message := [("type", JStr "users")].

(** Stored texts: a record of another version, a record without messages,
    a record with a one-element message array. *)
Definition text_version_2 : string :=
  JSON_stringify (JObj [("version", JNum 2); ("messages", JArr [JNull])]).
Definition text_no_messages : string :=
  JSON_stringify (JObj [("version", JNum 1)]).
Definition text_with_messages : string :=
  JSON_stringify (JObj [("version", JNum 1); ("messages", JArr [JNull])]).

(** A store with the lobby's record and the record of a room [old] that no
    longer exists. *)
Definition stale_store : gmap string string :=
  <[getStorageKey "lobby" := JSON_stringify (record 1000 "lobby" [sample_text])]>
    (<[getStorageKey "old" :=
         JSON_stringify (record 1000 "old" [sample_text; sample_text])]> ∅).

(** A text message whose text is [n] letters. *)
Fixpoint letters (n : nat) : string :=
  match n with
  | O => EmptyString
  | S n => String "a" (letters n)
  end.

Definition long_message (n : nat) : message :=
  [("type", JStr "text"); ("text", JStr (letters n))].

(** The store after the two samples were saved for the lobby at time 1000,
    and after they were saved again at time 2000. *)
Definition saved_once : gmap string string :=
  {[getStorageKey "lobby" :=
      JSON_stringify (record 1000 "lobby" (storable [sample_text; sample_file; sample_users]))]}.

Definition saved_twice : gmap string string :=
  {[getStorageKey "lobby" :=
      JSON_stringify (record 2000 "lobby" (storable [sample_text; sample_file; sample_users]))]}.

(** The length of the record text around the letters of a long message,
    for a four-digit time stamp and the lobby. *)
Definition record_overhead : nat :=
  Eval vm_compute in
    String.length (JSON_stringify (record 1000 "lobby" [long_message 0])).

(** A transport of user [bob] whose first attempt to reach room [a] is
    under way. *)
Definition connecting_a : transport :=
  fst (runs [CallConnectRoom "a"] (constructor "bob")).

(** The same transport once the socket is open. *)
Definition open_a : transport :=
  fst (runs [CallConnectRoom "a"; SocketOpens 0] (constructor "bob")).

(** A configuration whose server allows four bytes a message, and a byte
    count for texts of 7-bit characters. *)
Definition tiny_config : config :=
  applyServerConfig (JObj [("maxMessageBytes", JNum 4)]) default_config.

Definition ascii_bytes (s : string) : Z := Z.of_nat (String.length s).

(** ** config.js: keys and texts *)

Definition LOBBY_ROOM : string := "lobby".

(** The key of the saved user name. *)
Definition STORAGE_KEY : string := "lanchat_username".

(** ** user.js *)

(** [loadSavedUsername]: [localStorage.getItem(STORAGE_KEY) || ""]; reading
    the store does not throw here. *)
Definition loadSavedUsername (st : gmap string string) : string :=
  match st !! STORAGE_KEY with
  | Some name => name
  | None => EmptyString
  end.

(** ** config.js: error texts *)

(** Texts are given in UTF-8. *)
Definition NAME_RULE : string := "仅中文/字母/数字/下划线/短横线, 1-10位".

Definition ERROR_MAP : list (string * string) :=
  [("bad_room", "房间名不合法(" +:+ NAME_RULE +:+ ")");
   ("room_exists", "房间已存在");
   ("reserved", "房间名保留不可用");
   ("msg_too_large", "消息过大");
   ("bad_username", "用户名不合法(" +:+ NAME_RULE +:+ ")");
   ("ws_closed_1008", "协议/策略校验失败");
   ("ws_closed_1009", "消息尺寸超出限制")].

(** The default [fallback] of [errorText]. *)
Definition DEFAULT_ERROR : string := "发生错误".

(** The names [ERROR_MAP] inherits from [Object.prototype]; each is a
    function or an object, so truthy. *)
Definition object_prototype : list string :=
  ["constructor"; "__defineGetter__"; "__defineSetter__"; "hasOwnProperty";
   "__lookupGetter__"; "__lookupSetter__"; "isPrototypeOf";
   "propertyIsEnumerable"; "toString"; "valueOf"; "__proto__";
   "toLocaleString"].

(** ToString, for a property key and for a template literal: an array is
    its elements joined by commas, [null] among them as the empty text. *)
Fixpoint to_string (v : json) : string :=
  match v with
  | JNull => "null"
  | JBool true => "true"
  | JBool false => "false"
  | JNum n => Json.write_int (Z.to_int n) EmptyString
  | JStr s => s
  | JArr l =>
      (fix join (l : list json) : string :=
         match l with
         | [] => EmptyString
         | x :: r =>
             match x with JNull => EmptyString | _ => to_string x end
             +:+ match r with [] => EmptyString | _ :: _ => "," +:+ join r end
         end) l
  | JObj _ => "[object Object]"
  end.

(** SameValueZero of two values read from different JSON texts: arrays and
    objects are different objects. *)
Definition same_value_zero (a b : json) : bool :=
  match a, b with
  | JNull, JNull => true
  | JBool x, JBool y => Bool.eqb x y
  | JNum x, JNum y => x =? y
  | JStr x, JStr y => String.eqb x y
  | _, _ => false
  end.

(** [[...new Set(codes)]]: the first occurrence of every value, in order;
    the arrays and objects of one array are different objects. *)
Fixpoint dedupe (seen : list json) (codes : list json) : list json :=
  match codes with
  | [] => []
  | x :: r =>
      if existsb (same_value_zero x) seen then dedupe seen r
      else x :: dedupe (x :: seen) r
  end.

(** The [SERVER_ERROR_CODES] that [applyServerConfig] leaves. *)
Definition applyServerErrorCodes (cfg : json) (codes : list json) : list json :=
  match cfg with
  | JObj o =>
      match prop "errorCodes" o with
      | Some (JArr l) => dedupe [] l
      | _ => codes
      end
  | _ => codes
  end.

(** What a text-valued expression gives: a text, or a member of
    [Object.prototype] read through [ERROR_MAP]. *)
Inductive shown : Type :=
| Text (s : string)
| Member (name : string).

Fixpoint own_text (key : string) (map : list (string * string)) : option string :=
  match map with
  | [] => None
  | (k, text) :: r => if String.eqb k key then Some text else own_text key r
  end.

(** [errorText(code, fallback)] under the given [SERVER_ERROR_CODES]. *)
Definition errorText (SERVER_ERROR_CODES : list json) (code : jsval)
    (fallback : string) : shown :=
  match code with
  | None => Text fallback
  | Some v =>
      if negb (truthy code) then Text fallback
      else
        let key := to_string v in
        match own_text key ERROR_MAP with
        | Some text => Text text
        | None =>
            if bool_decide (key ∈ object_prototype) then Member key
            else if existsb (same_value_zero v) SERVER_ERROR_CODES
            then Text (fallback +:+ "(" +:+ key +:+ ")")
            else Text fallback
        end
  end.

(** ** main.js: the [error] handler *)

(** [v.k] on a value that is not [null]. *)
Definition field (v : json) (k : string) : jsval :=
  match v with
  | JObj o => prop k o
  | _ => None
  end.

(** The text handed to [statusMessage]:
    [m && (m.text || m.code) ? m.text || errorText(m.code) : "发生错误"];
    a truthy [m.text] is shown as the page converts it to text. *)
Definition error_message (SERVER_ERROR_CODES : list json) (m : json) : shown :=
  if truthy (Some m) && (truthy (field m "text") || truthy (field m "code")) then
    match field m "text" with
    | Some text =>
        if truthy (Some text) then Text (to_string text)
        else errorText SERVER_ERROR_CODES (field m "code") DEFAULT_ERROR
    | None => errorText SERVER_ERROR_CODES (field m "code") DEFAULT_ERROR
    end
  else Text DEFAULT_ERROR.

(** ** Handles and timers of a transport *)

(** The lobby handle names a lobby socket and the room handle a room
    socket, which is a socket of the current room unless a manual close is
    in progress; a scope with a pending reconnect timer has no handle; a
    pending room timer is for the current room, which has a name. *)
Record consistent (t : transport) : Prop := {
  lobby_handle :
    forall i, lobbyWs t = Some i ->
      exists s, sockets t !! i = Some s /\ sock_scope s = Lobby;
  room_handle :
    forall i, roomWs t = Some i ->
      exists s, sockets t !! i = Some s /\ sock_scope s = Room
                /\ (_roomManualClose t = false -> sock_room s = currentRoom t);
  lobby_timer_alone : is_Some (_lobbyTimer t) -> lobbyWs t = None;
  room_timer_alone : is_Some (_roomTimer t) -> roomWs t = None;
  room_timer_target :
    forall tm, _roomTimer t = Some tm ->
      timer_room tm = currentRoom t /\ nonempty (currentRoom t) = true
}.

(** The sockets a turn creates become the handles: a room socket is for
    the room that is current after the turn. *)
Definition creates_current (t' : transport) (e : list effect) : Prop :=
  Forall (fun x => match x with
                   | NewWebSocket id Room r =>
                       r = currentRoom t' /\ roomWs t' = Some id
                   | NewWebSocket id Lobby _ => lobbyWs t' = Some id
                   | _ => True
                   end) e.

(** [wsOpen] on the list of sockets. *)
Definition open_at (socks : list socket) (ws : option nat) : bool :=
  match ws with
  | Some i =>
      match socks !! i with
      | Some {| ready := OPEN |} => true
      | _ => false
      end
  | None => false
  end.

(** A call of [wsSend], a [sendFail] event, a call of [send]. *)
Definition is_send (x : effect) : bool :=
  match x with WsSend _ _ => true | _ => false end.

Definition is_send_fail (x : effect) : bool :=
  match x with Emit EvSendFail => true | _ => false end.

Definition send_fails (e : list effect) : nat :=
  length (filter (fun x => is_send_fail x = true) e).

Definition is_send_call (i : input) : bool :=
  match i with CallSend _ => true | _ => false end.

(** ** state.js: the connection notice *)

(** The element [connectionStatus]: its text, its [hidden] attribute and
    whether its class list has [is-visible]. *)
Record notice : Type := {
  textContent : string;
  hidden : bool;
  is_visible : bool
}.

(** The element, if the page has one, and [lastConnectionScope]. *)
Record status_view : Type := {
  connectionStatus : option notice;
  lastConnectionScope : option scope
}.

(** [Math.max(1, Math.round((ms || 0) / 1000))], for a whole number of
    milliseconds: [Math.round] takes a half upwards. *)
Definition secondsFromMs (ms : option Z) : Z :=
  Z.max 1 ((default 0 ms + 500) / 1000).

(** The text of the notice for a reconnect. *)
Definition retry_text (s : scope) (seconds : Z) : string :=
  match s with Lobby => "大厅" | Room => "房间" end
  +:+ "连接中断，" +:+ to_string (JNum seconds) +:+ "秒后重试...".

Definition showConnectionStatus (text : string) (s : scope) (v : status_view)
  : status_view :=
  match connectionStatus v with
  | None => v
  | Some el =>
      match s, lastConnectionScope v with
      | Room, Some Lobby => v
      | _, _ =>
          {| connectionStatus :=
               Some {| textContent := text; hidden := false; is_visible := true |};
             lastConnectionScope := Some s |}
      end
  end.

Definition hideConnectionStatus (s : scope) (v : status_view) : status_view :=
  match connectionStatus v with
  | None => v
  | Some el =>
      match lastConnectionScope v with
      | Some last =>
          if scope_eqb s last then
            {| connectionStatus :=
                 Some {| textContent := EmptyString; hidden := true;
                         is_visible := false |};
               lastConnectionScope := None |}
          else v
      | None => v
      end
  end.

(** [handleConnectionEvent] on the event that [_emitConnection] builds. *)
Definition handleConnectionEvent (s : scope) (state : connection_state)
    (delay : option Z) (v : status_view) : status_view :=
  match state with
  | Reconnecting => showConnectionStatus (retry_text s (secondsFromMs delay)) s v
  | Connected => hideConnectionStatus s v
  end.

(** The notice after the [connection] events among the calls of the
    transport, in order. *)
Definition notice_after (e : list effect) (v : status_view) : status_view :=
  fold_left (fun v x =>
               match x with
               | Emit (EvConnection s state delay _) =>
                   handleConnectionEvent s state delay v
               | _ => v
               end) e v.

(** The element is hidden exactly when no scope is recorded, and has the
    class [is-visible] exactly when it is not hidden. *)
Definition coherent (v : status_view) : Prop :=
  match connectionStatus v with
  | Some el =>
      is_visible el = negb (hidden el)
      /\ (hidden el = true <-> lastConnectionScope v = None)
  | None => True
  end.

(** A transport whose first attempt to reach the lobby is under way, and a
    page whose notice is hidden. *)
Definition connecting_lobby : transport :=
  fst (runs [CallConnectLobby] (constructor "bob")).

Definition hidden_notice : status_view :=
  {| connectionStatus :=
       Some {| textContent := EmptyString; hidden := true; is_visible := false |};
     lastConnectionScope := None |}.

(** ** The page around the transport *)

(** The [Transport] instance (with the user name of state.js), the
    browser's store, the one-shot [open] listeners that [requestCreate] has
    added (the socket and the room name of each, in the order of their
    registration) and the flag [isCreatingRoom] of state.js. *)
Record page : Type := {
  transport_of : transport;
  localStorage : gmap string string;
  create_listeners : list (nat * string);
  isCreatingRoom : bool
}.

(** Calls of the page's modules: those of the transport and of [sendText],
    a status message with a text of config.js, the loss of focus of an
    input box, at once or in a later turn, and the calls of [sendFile]:
    the status message [TEXT.msgTooLarge], the progress bar, and the start
    of reading a file. *)
Inductive page_call : Type :=
| Call (e : effect)
| ShowStatus (s : shown)
| Blur (id : string)
| BlurLater (id : string)
| MsgTooLarge (jsonBytes max : Z)
| SetProgress (pct : Z) (text : string)
| HideProgress (delay : Z) (finalText : option string)
| ReadAsDataURL (name : string).

Definition pg (A : Type) : Type := page -> A * page * list page_call.

#[export] Instance pg_ret : MRet pg := fun A a p => (a, p, []).

#[export] Instance pg_bind : Bind pg := fun A B m f p =>
  let '(a, p1, e1) := m p in
  let '(b, p2, e2) := f a p1 in
  (b, p2, e1 ++ e2).

(** A method of the transport, run on the page's transport. *)
Definition on_transport {A : Type} (m : act A) : pg A := fun p =>
  let '(a, t, e) := m (transport_of p) in
  (a, {| transport_of := t; localStorage := localStorage p;
         create_listeners := create_listeners p;
         isCreatingRoom := isCreatingRoom p |}, Call <$> e).

(** A storage call whose exception, if any, is caught and dropped. *)
Definition on_store (m : js unit) : pg unit := fun p =>
  (tt, {| transport_of := transport_of p;
          localStorage := snd (try_catch m (fun _ => mret tt) (localStorage p));
          create_listeners := create_listeners p;
          isCreatingRoom := isCreatingRoom p |}, []).

Definition emit (x : page_call) : pg unit := fun p => (tt, p, [x]).

Definition read_store {A : Type} (f : gmap string string -> A) : pg A :=
  fun p => (f (localStorage p), p, []).

(** ** user.js *)

Section user.
(** [validName] of utils.js, which is not among the sources. *)
Variable validName : string -> bool.
Variable accepts : gmap string string -> bool.
Variable SERVER_ERROR_CODES : list json.

(** [confirmUsername(transport)], for the value of the name box. *)
Definition confirmUsername (value : string) : pg bool :=
  let newName := trim value in
  if negb (nonempty newName) then
    _ <- emit (Call (StatusMessage EnterUsername)) ;;
    _ <- emit (Call FocusUsername) ;;
    mret false
  else if negb (validName newName) then
    _ <- emit (ShowStatus (errorText SERVER_ERROR_CODES
                             (Some (JStr "bad_username")) DEFAULT_ERROR)) ;;
    _ <- emit (Call FocusUsername) ;;
    mret false
  else
    name <- on_transport (read username) ;;
    if String.eqb newName name then mret false
    else
      _ <- on_transport (write (set_username newName)) ;;
      _ <- on_store (setItem accepts STORAGE_KEY newName) ;;
      _ <- emit (Blur "username") ;;
      open <- on_transport (read isRoomOpen) ;;
      _ <- (if open
            then on_transport
                   (send (JObj [("type", JStr "rename"); ("username", JStr newName)]))
            else mret tt) ;;
      mret true.

(** [ensureUsername({ autoConfirm, transport })], for the value of the
    name box. *)
Definition ensureUsername_with (autoConfirm : bool) (value : string) : pg bool :=
  name <- on_transport (read username) ;;
  if nonempty name then mret true
  else if autoConfirm && nonempty (trim value) then
    _ <- confirmUsername value ;;
    mret true
  else
    _ <- emit (Call (StatusMessage EnterUsername)) ;;
    _ <- emit (Call FocusUsername) ;;
    mret false.

End user.

(** ** init.js *)

(** The part of [init] that reads the saved user name: with one, the name
    is set and the lobby and the lobby room are connected; without, the
    page asks for a name. *)
Definition init : pg unit :=
  saved <- read_store loadSavedUsername ;;
  if nonempty saved then
    _ <- on_transport (write (set_username saved)) ;;
    _ <- on_transport connectLobby ;;
    on_transport (connectRoom LOBBY_ROOM)
  else
    _ <- emit (Call (StatusMessage EnterUsername)) ;;
    emit (Call FocusUsername).

(** A page that was just loaded, with the given store. *)
Definition new_page (st : gmap string string) : page :=
  {| transport_of := constructor EmptyString; localStorage := st;
     create_listeners := []; isCreatingRoom := false |}.

(** The frames handed to [wsSend], and the sockets created, among the
    calls of the page. *)
Definition sent (e : list page_call) : list (option nat * json) :=
  omap (fun x => match x with
                 | Call (WsSend ws payload) => Some (ws, payload)
                 | _ => None
                 end) e.

Definition opened_sockets (e : list page_call) : list (nat * scope * string) :=
  omap (fun x => match x with
                 | Call (NewWebSocket id s roomId) => Some (id, s, roomId)
                 | _ => None
                 end) e.

Definition rename_frame (name : string) : json :=
  JObj [("type", JStr "rename"); ("username", JStr name)].

(** ** transport.js: [requestCreate] *)

Definition create_frame (room : string) : json :=
  JObj [("type", JStr "create"); ("room", JStr room)].

Definition read_page {A : Type} (f : page -> A) : pg A := fun p => (f p, p, []).

Definition set_listeners (l : list (nat * string)) : pg unit := fun p =>
  (tt, {| transport_of := transport_of p; localStorage := localStorage p;
          create_listeners := l; isCreatingRoom := isCreatingRoom p |}, []).

(** [requestCreate(room)]: the frame is sent at once on an open lobby
    socket; otherwise [connectLobby] is called and a listener for [open] is
    added to the socket that is then the lobby handle. *)
Definition requestCreate (room : string) : pg unit :=
  open <- on_transport (read (fun t => wsOpen (lobbyWs t) t)) ;;
  _ <- (if open then mret tt else on_transport connectLobby) ;;
  sock <- on_transport (read lobbyWs) ;;
  open_now <- on_transport (read (wsOpen sock)) ;;
  if open_now then emit (Call (WsSend sock (create_frame room)))
  else
    match sock with
    | Some i =>
        listeners <- read_page create_listeners ;;
        set_listeners (listeners ++ [(i, room)])
    | None => mret tt
    end.

(** The listeners of [requestCreate] on socket [k] run: each removes
    itself and sends its frame. *)
Definition fire_listeners (k : nat) : pg unit := fun p =>
  (tt, {| transport_of := transport_of p; localStorage := localStorage p;
          create_listeners := filter (fun l => fst l <> k) (create_listeners p);
          isCreatingRoom := isCreatingRoom p |},
   (fun l => Call (WsSend (Some k) (create_frame (snd l))))
     <$> filter (fun l => fst l = k) (create_listeners p)).

(** The browser opens socket [k]: the transport's listener runs, then the
    listeners added later. *)
Definition socket_opens (k : nat) : pg unit :=
  s <- on_transport (read (fun t => sockets t !! k)) ;;
  match s with
  | Some {| ready := CONNECTING |} =>
      _ <- on_transport (step (SocketOpens k)) ;;
      fire_listeners k
  | _ => mret tt
  end.

(** ** events.js: the button that creates a room *)

Section events.
Variable validName : string -> bool.
Variable accepts : gmap string string -> bool.
Variable SERVER_ERROR_CODES : list json.

Definition set_creating (b : bool) : pg unit := fun p =>
  (tt, {| transport_of := transport_of p; localStorage := localStorage p;
          create_listeners := create_listeners p; isCreatingRoom := b |}, []).

(** The click listener of [createRoomBtn], for the values of the room box
    and of the name box. *)
Definition create_click (roomCode nameBox : string) : pg unit :=
  let roomName := trim roomCode in
  named <- ensureUsername_with validName accepts SERVER_ERROR_CODES true nameBox ;;
  if negb named then mret tt
  else if negb (validName roomName) then
    emit (ShowStatus (errorText SERVER_ERROR_CODES (Some (JStr "bad_room"))
                        DEFAULT_ERROR))
  else
    _ <- set_creating true ;;
    _ <- on_transport connectLobby ;;
    _ <- requestCreate roomName ;;
    emit (BlurLater "roomCode").

End events.

(** ** main.js: the handlers that reach the store *)

(** The elements that the spread [[...list]] gives: those of an array, the
    characters of a string; a number, a boolean or an object is not
    iterable. *)
Definition spread (v : json) : option (list json) :=
  match v with
  | JArr l => Some l
  | JStr s => Some ((fun ch => JStr (String ch EmptyString)) <$> list_ascii_of_string s)
  | _ => None
  end.

(** The strings among the entries of [existingRooms]: only these can be
    the room of a key. *)
Definition room_names (existingRooms : list json) : list string :=
  omap (fun v => match v with JStr s => Some s | _ => None end) existingRooms.

(** The [rooms] handler up to its call of [renderRoomList], for the list
    [names] of the event: the list of existing rooms after it, and the
    store.  When [names] is not iterable
    the spread throws, nothing is changed, and the transport's [message]
    listener swallows the exception. *)
Definition rooms_handler (names : json) (currentRoom : string)
    (existingRooms : list json) (st : gmap string string)
  : list json * gmap string string :=
  match spread names with
  | Some l =>
      let rooms := JStr LOBBY_ROOM :: l in
      (rooms, cleanupNonExistentRooms (room_names rooms) currentRoom st)
  | None => (existingRooms, st)
  end.

(** [TEXT.joined]. *)
Definition joined (roomId : string) : string :=
  if String.eqb roomId LOBBY_ROOM then "已加入" else "已加入 " +:+ roomId.

Section history.
Variable c : config.
Variable accepts : gmap string string -> bool.
Variable now : Z.
(** Whether [addMessage] returns normally for the message [m], which is
    not [null]: the page's elements and the helpers of utils.js are not
    among the sources. *)
Variable shows : json -> bool.

Definition renders (m : json) : bool :=
  match m with
  | JNull => false
  | _ => shows m
  end.

(** [loadRoomHistory]: the new [currentRoomMessages] and the store.  A
    loaded value that is no array has no [forEach]; that, and a message
    that cannot be shown, throws inside the [try], and the history is set
    to the empty array. *)
Definition loadRoomHistory (roomId : string) (st : gmap string string)
  : list json * gmap string string :=
  match loadRoomMessages c roomId st with
  | (Return (JArr (m :: l)), st') =>
      if forallb renders (m :: l) then (m :: l, st') else ([], st')
  | (_, st') => ([], st')
  end.

(** The objects among the messages: [prepareMessageForStorage] reads
    [type] as [undefined] on anything else that is not [null]. *)
Definition objects (messages : list json) : list message :=
  omap (fun v => match v with JObj o => Some o | _ => None end) messages.

Definition is_null (v : json) : bool :=
  match v with JNull => true | _ => false end.

(** [saveRoomMessages] on an array of any values: reading [type] of [null]
    throws a [TypeError], which the function logs and swallows before
    anything is written. *)
Definition saveRoomMessages_any (roomId : string) (messages : list json)
  : js unit :=
  if existsb is_null messages then mret tt
  else saveRoomMessages c accepts now roomId (objects messages).

(** [addMessageToCurrentRoom(message, roomId)]: the new
    [currentRoomMessages] and the store. *)
Definition addMessageToCurrentRoom (m : json) (roomId : string)
    (currentRoomMessages : list json) (st : gmap string string)
  : list json * gmap string string :=
  let messages := currentRoomMessages ++ [m] in
  (messages,
   snd (try_catch (saveRoomMessages_any roomId messages) (fun _ => mret tt) st)).

(** The message that the [opened] handler adds, for the time [ts] in ISO
    form. *)
Definition joinMessage (roomId ts : string) : message :=
  [("type", JStr "status"); ("text", JStr (joined roomId)); ("ts", JStr ts)].

(** The [opened] handler: [currentRoomMessages] and the store after it.
    [shown_ts] is the time that [statusMessage] stamps on the text it
    shows; when that cannot be shown the handler throws before it adds
    the message. *)
Definition opened_handler (roomId ts shown_ts : string)
    (st : gmap string string) : list json * gmap string string :=
  let '(history, st1) := loadRoomHistory roomId st in
  if renders (JObj [("type", JStr "status"); ("text", JStr (joined roomId));
                    ("ts", JStr shown_ts)])
  then addMessageToCurrentRoom (JObj (joinMessage roomId ts)) roomId history st1
  else (history, st1).

(** The [roomSwitch] handler: [currentRoomMessages] and the store. *)
Definition roomSwitch_handler (roomId : string) (existingRooms : list json)
    (st : gmap string string) : list json * gmap string string :=
  let '(history, st1) := loadRoomHistory roomId st in
  (history, cleanupNonExistentRooms (room_names existingRooms) roomId st1).

End history.

(** What [loadRoomMessages] returns for a record written by
    [saveRoomMessages]: its messages, the most recent [MAX_MESSAGES] of
    them if there are more. *)
Definition loaded (c : config) (final : list message) : list message :=
  if MAX_MESSAGES c <? Z.of_nat (length final)
  then slice_from (- MAX_MESSAGES c) final else final.


(** The samples as [saveRoomMessages] stores them, a time in ISO form, and
    the record of the lobby after it was opened at time 2000. *)
Definition stored_samples : list message :=
  storable [sample_text; sample_file; sample_users].

Definition sample_ts : string := "2026-01-01T00:00:00.000Z".

Definition reopened_text : string :=
  JSON_stringify
    (record 2000 "lobby"
       (loaded default_config stored_samples ++ [joinMessage "lobby" sample_ts])).

Definition replaced_text : string :=
  JSON_stringify (record 2000 "lobby" [joinMessage "lobby" sample_ts]).

(** A page that can show status messages only. *)
Definition only_status (m : json) : bool :=
  match m with
  | JObj o => type_is o "status"
  | _ => false
  end.

(** ** config.js and sender.js: files *)

Definition HEADROOM_BYTES : Z := 16 * 1024.

(** [Math.floor(Math.max(0, MAX_MESSAGE_BYTES - HEADROOM_BYTES) / (4 / 3))]:
    for a whole number of bytes the quotient by the double nearest to 4/3
    is three quarters of it, rounded to itself. *)
Definition allowedFileOriginalBytes (c : config) : Z :=
  Z.max 0 (MAX_MESSAGE_BYTES c - HEADROOM_BYTES) * 3 / 4.

(** A [File]: its name, its type and its size in bytes. *)
Record file : Type := {
  file_name : string;
  file_type : string;
  file_size : Z
}.

(** [TEXT.fileTooLarge(maxMB)]. *)
Definition fileTooLarge (maxMB : Z) : string :=
  "文件大小应≤" +:+ to_string (JNum maxMB) +:+ "MB".

(** The message that [reader.onload] builds from the data URL. *)
Definition file_message (f : file) (dataUrl : string) : message :=
  [("type", JStr "file"); ("name", JStr (file_name f));
   ("mime", JStr (file_type f)); ("size", JNum (file_size f));
   ("data", JStr dataUrl)].

Section files.
Variable c : config.
Variable utf8ByteLength : string -> Z.

(** [sendFile(file, transport)] for a file that is there, up to the start
    of the read; [Math.round] of the limit in megabytes takes a half
    upwards. *)
Definition sendFile (f : file) : pg unit :=
  named <- on_transport ensureUsername ;;
  if negb named then mret tt
  else
    open <- on_transport (read isRoomOpen) ;;
    if negb open then emit (Call (StatusMessage SendFailText))
    else
      let allowed := allowedFileOriginalBytes c in
      if allowed <? file_size f then
        let maxMB := (2 * allowed + 1024 * 1024) / (2 * (1024 * 1024)) in
        emit (ShowStatus (Text (fileTooLarge maxMB)))
      else emit (ReadAsDataURL (file_name f)).

(** [reader.onload], for the data URL that was read. *)
Definition reader_onload (f : file) (dataUrl : string) : pg unit :=
  let msg := JObj (file_message f dataUrl) in
  let jsonBytes := utf8ByteLength (JSON_stringify msg) in
  if MAX_MESSAGE_BYTES c <? jsonBytes then
    _ <- emit (HideProgress 1200 (Some "超出上限")) ;;
    emit (MsgTooLarge jsonBytes (MAX_MESSAGE_BYTES c))
  else
    _ <- emit (SetProgress 100 "发送中...") ;;
    _ <- on_transport (send msg) ;;
    emit (HideProgress 800 None).

End files.

(** The files handed to [readAsDataURL] among the calls. *)
Definition reads (e : list page_call) : list string :=
  omap (fun x => match x with ReadAsDataURL name => Some name | _ => None end) e.

(** The [sendFail] events among the calls. *)
Definition failed_sends (e : list page_call) : nat :=
  length (filter (fun x => match x with Call (Emit EvSendFail) => true | _ => false end = true) e).
(** *** The reader inverts the writer *)

Module JsonFacts.
Import Json.

Lemma write_array l k :
  write (JArr l) k = String "[" (write_items l (String "]" k)).
Proof. reflexivity. Qed.

Lemma write_object o k :
  write (JObj o) k = String "{" (write_members o (String "}" k)).
Proof. reflexivity. Qed.

Lemma read_string_char c rest :
  read_string (write_char c rest) = push c (read_string rest).
Proof. destruct c as [[] [] [] [] [] [] [] []]; reflexivity. Qed.

Lemma read_string_chars s k :
  read_string (write_chars s (String dquote k)) = Some (s, k).
Proof.
  induction s as [|c s IH]; simpl; [reflexivity|].
  now rewrite read_string_char, IH.
Qed.

Lemma read_uint_write d k :
  nodigit k -> read_uint (write_uint d k) = (d, k).
Proof.
  intros Hk. induction d; simpl; try (now rewrite IHd).
  destruct k as [|c k]; simpl in *; [reflexivity|now rewrite Hk].
Qed.

Lemma to_int_digits n :
  match Z.to_int n with
  | Pos d | Neg d => d <> Nil
  end.
Proof.
  destruct (Z.to_int n) as [d|d] eqn:E; intros ->;
    pose proof (DecimalZ.of_to n) as H; rewrite E in H; simpl in H;
    subst n; discriminate E.
Qed.

Lemma read_value_number fuel s :
  starts_number s -> read_value (S fuel) s = read_number s.
Proof.
  destruct s as [|c s]; simpl; [intros []|].
  destruct c as [[] [] [] [] [] [] [] []]; intros [H|H];
    try discriminate H; try reflexivity; now destruct H.
Qed.

Lemma write_int_starts n k : starts_number (write_int (Z.to_int n) k).
Proof.
  pose proof (to_int_digits n) as H.
  destruct (Z.to_int n) as [d|d]; simpl; [|now left].
  destruct d; simpl; try (right; discriminate). now destruct H.
Qed.

Lemma int_beq_refl (i : Decimal.int) : int_beq i i = true.
Proof. now apply internal_signed_int_dec_lb. Qed.

Lemma read_number_write n k :
  nodigit k -> read_number (write_int (Z.to_int n) k) = Some (JNum n, k).
Proof.
  intros Hk. unfold read_number.
  pose proof (to_int_digits n) as Hd.
  destruct (Z.to_int n) as [d|d] eqn:E; simpl.
  - assert (Hr : (match write_uint d k with
                  | String "-" r => let (d0, rest) := read_uint r in (Neg d0, rest)
                  | _ => let (d0, rest) := read_uint (write_uint d k) in (Pos d0, rest)
                  end) = (Pos d, k)).
    { rewrite read_uint_write by assumption.
      destruct d; try reflexivity. now destruct Hd. }
    rewrite Hr, <- E, DecimalZ.of_to, int_beq_refl. reflexivity.
  - rewrite read_uint_write by assumption.
    rewrite <- E, DecimalZ.of_to, int_beq_refl. reflexivity.
Qed.

(** Every value's text starts with a character other than a closing
    bracket. *)
Lemma write_head v k :
  exists c r, write v k = String c r /\ c <> "]"%char.
Proof.
  destruct v as [|[]|n|s|l|o]; simpl;
    try (eexists _, _; split; [reflexivity|discriminate]).
  pose proof (to_int_digits n) as Hd.
  destruct (Z.to_int n) as [d|d]; simpl.
  - destruct d; simpl; try (eexists _, _; split; [reflexivity|discriminate]).
    now destruct Hd.
  - eexists _, _; split; [reflexivity|discriminate].
Qed.

Lemma read_value_array fuel c r :
  c <> "]"%char ->
  read_value (S fuel) (String "[" (String c r)) =
  match read_items fuel (String c r) with
  | Some (l, rest) => Some (JArr l, rest)
  | None => None
  end.
Proof.
  intros Hc. destruct c as [[] [] [] [] [] [] [] []];
    try reflexivity; now destruct Hc.
Qed.

Lemma text_length_array l : text_length (JArr l) = S (S (items_length l)).
Proof. reflexivity. Qed.

Lemma text_length_object o : text_length (JObj o) = S (S (members_length o)).
Proof. reflexivity. Qed.

Lemma text_length_pos v : (1 <= text_length v)%nat.
Proof.
  destruct v as [|[]|n|s|l|o]; simpl; try lia.
  pose proof (to_int_digits n) as Hd.
  destruct (Z.to_int n) as [d|d]; simpl; [|lia].
  destruct d; simpl; try lia. now destruct Hd.
Qed.

Section roundtrip.

Lemma read_items_write l :
  Forall (fun v => forall n k, (text_length v <= n)%nat -> nodigit k ->
            read_value n (write v k) = Some (v, k)) l ->
  l <> [] ->
  forall n k, (S (items_length l) <= n)%nat ->
    read_items n (write_items l (String "]" k)) = Some (l, k).
Proof.
  induction 1 as [|x r Hx Hr IH]; [congruence|]. intros _ n k Hn.
  destruct n as [|n]; [lia|]. simpl in Hn.
  destruct r as [|y r].
  - simpl. rewrite Hx; [reflexivity|lia|reflexivity].
  - change (write_items (x :: y :: r) (String "]" k))
      with (write x (String "," (write_items (y :: r) (String "]" k)))).
    cbn [read_items]. rewrite Hx; [|lia|reflexivity].
    pose proof (text_length_pos x).
    rewrite IH; [reflexivity|discriminate|]. simpl in *. lia.
Qed.

Lemma read_members_write o :
  Forall (fun kv => forall n k, (text_length (snd kv) <= n)%nat -> nodigit k ->
            read_value n (write (snd kv) k) = Some (snd kv, k)) o ->
  o <> [] ->
  forall n k, (S (members_length o) <= n)%nat ->
    read_members n (write_members o (String "}" k)) = Some (o, k).
Proof.
  induction 1 as [|[key x] r Hx Hr IH]; [congruence|]. intros _ n k Hn.
  destruct n as [|n]; [lia|]. simpl in Hn, Hx.
  destruct r as [|y r].
  - simpl. rewrite read_string_chars.
    rewrite Hx; [reflexivity|lia|reflexivity].
  - change (write_members ((key, x) :: y :: r) (String "}" k))
      with (write_string key (String ":"
              (write x (String "," (write_members (y :: r) (String "}" k)))))).
    cbn [read_members write_string]. rewrite read_string_chars.
    rewrite Hx; [|lia|reflexivity].
    rewrite IH; [reflexivity|discriminate|]. simpl in *. lia.
Qed.

Lemma read_write v :
  forall n k, (text_length v <= n)%nat -> nodigit k ->
    read_value n (write v k) = Some (v, k).
Proof.
  induction v as [|b|z|s|l IH|o IH] using json_nested_ind; intros n k Hn Hk.
  - destruct n; [simpl in Hn; lia|reflexivity].
  - destruct n; [destruct b; simpl in Hn; lia|]. now destruct b.
  - destruct n as [|n]; [pose proof (text_length_pos (JNum z)); lia|].
    cbn [write]. rewrite read_value_number by apply write_int_starts.
    now apply read_number_write.
  - destruct n; [simpl in Hn; lia|].
    cbn [write write_string read_value]. now rewrite read_string_chars.
  - destruct n as [|n]; [simpl in Hn; lia|].
    rewrite write_array. rewrite text_length_array in Hn.
    destruct l as [|x r]; [reflexivity|].
    destruct (write_head x (match r with
                            | [] => String "]" k
                            | _ :: _ => String "," (write_items r (String "]" k))
                            end)) as (c & rest & Hw & Hc).
    change (write_items (x :: r) (String "]" k))
      with (write x (match r with
                     | [] => String "]" k
                     | _ :: _ => String "," (write_items r (String "]" k))
                     end)).
    rewrite Hw, read_value_array by assumption. rewrite <- Hw.
    change (write x _) with (write_items (x :: r) (String "]" k)).
    rewrite read_items_write; [reflexivity|assumption|discriminate|lia].
  - destruct n as [|n]; [simpl in Hn; lia|].
    rewrite write_object. rewrite text_length_object in Hn.
    destruct o as [|[key x] r]; [reflexivity|].
    assert (Hrd : read_value (S n)
                    (String "{" (write_members ((key, x) :: r) (String "}" k))) =
                  match read_members n (write_members ((key, x) :: r) (String "}" k)) with
                  | Some (o, rest) => Some (JObj o, rest)
                  | None => None
                  end) by reflexivity.
    rewrite Hrd, read_members_write; [reflexivity|assumption|discriminate|lia].
Qed.

End roundtrip.

Lemma length_write_char c k :
  String.length (write_char c k) = (char_length c + String.length k)%nat.
Proof. destruct c as [[] [] [] [] [] [] [] []]; reflexivity. Qed.

Lemma length_write_chars s k :
  String.length (write_chars s k) = (chars_length s + String.length k)%nat.
Proof.
  induction s as [|c s IH]; simpl; [reflexivity|].
  rewrite length_write_char, IH. lia.
Qed.

Lemma length_write_string s k :
  String.length (write_string s k) = (S (S (chars_length s)) + String.length k)%nat.
Proof. unfold write_string. simpl. rewrite length_write_chars. simpl. lia. Qed.

Lemma length_write_uint d k :
  String.length (write_uint d k) = (nb_digits d + String.length k)%nat.
Proof. induction d; simpl; congruence. Qed.

Lemma length_write v :
  forall k, String.length (write v k) = (text_length v + String.length k)%nat.
Proof.
  induction v as [|b|z|s|l IH|o IH] using json_nested_ind; intros k.
  - reflexivity.
  - now destruct b.
  - cbn [write text_length]. destruct (Z.to_int z); simpl;
      now rewrite length_write_uint.
  - cbn [write text_length]. apply length_write_string.
  - rewrite write_array, text_length_array. cbn [String.length]. f_equal.
    assert (H : String.length (write_items l (String "]" k)) =
                (items_length l + S (String.length k))%nat).
    { induction IH as [|x r Hx Hr IHr]; [reflexivity|].
      cbn [write_items items_length]. rewrite Hx.
      destruct r; [simpl; lia|]. cbn [String.length]. rewrite IHr. lia. }
    rewrite H. lia.
  - rewrite write_object, text_length_object. cbn [String.length]. f_equal.
    assert (H : String.length (write_members o (String "}" k)) =
                (members_length o + S (String.length k))%nat).
    { induction IH as [|[key x] r Hx Hr IHr]; [reflexivity|].
      cbn [write_members members_length]. rewrite length_write_string.
      cbn [String.length]. simpl in Hx. rewrite Hx.
      destruct r; [simpl; lia|]. cbn [String.length]. rewrite IHr. lia. }
    rewrite H. lia.
Qed.

Lemma length_stringify v : String.length (stringify v) = text_length v.
Proof. unfold stringify. rewrite length_write. simpl. lia. Qed.

(** [JSON.parse(JSON.stringify(v))] is [v]. *)
Lemma parse_stringify v : parse (stringify v) = Some v.
Proof.
  unfold parse. rewrite length_stringify. unfold stringify.
  now rewrite read_write.
Qed.

(** Nothing is read from the empty text. *)
Lemma parse_empty : parse EmptyString = None.
Proof. reflexivity. Qed.

End JsonFacts.

(** ** Facts about the store and the helpers *)

Section helper_facts.

Lemma slice_from_suffix {A} (start : Z) (l : list A) :
  slice_from start l `suffix_of` l.
Proof. apply suffix_drop. Qed.

Lemma slice_from_fmap {A B} (f : A -> B) (start : Z) (l : list A) :
  slice_from start (f <$> l) = f <$> slice_from start l.
Proof. unfold slice_from. now rewrite length_fmap, fmap_drop. Qed.

(** [slice(-n)] of a longer array keeps exactly its last [n] entries. *)
Lemma slice_from_length {A} (n : Z) (l : list A) :
  0 < n -> n < Z.of_nat (length l) ->
  Z.of_nat (length (slice_from (- n) l)) = n.
Proof.
  intros Hn Hl. unfold slice_from.
  destruct (Z.ltb_spec (- n) 0) as [_|]; [|lia].
  rewrite length_drop. lia.
Qed.

(** [slice(-0)] is the whole array. *)
Lemma slice_from_zero {A} (l : list A) : slice_from (- 0) l = l.
Proof. unfold slice_from. simpl. now rewrite Z.min_l by lia. Qed.

Lemma strip_prefix_app p s : strip_prefix p (p +:+ s) = Some s.
Proof.
  induction p as [|a p IH]; simpl; [reflexivity|].
  now rewrite Ascii.eqb_refl.
Qed.

Lemma strip_prefix_Some p s r : strip_prefix p s = Some r -> s = p +:+ r.
Proof.
  revert s. induction p as [|a p IH]; simpl; intros s H.
  - now injection H as ->.
  - destruct s as [|b s]; [discriminate|].
    destruct (Ascii.eqb_spec a b) as [->|]; [|discriminate].
    change (String b p +:+ r) with (String b (p +:+ r)).
    f_equal. now apply IH.
Qed.

Lemma room_of_key_storage_key roomId :
  room_of_key (getStorageKey roomId) = Some roomId.
Proof. apply strip_prefix_app. Qed.

Lemma getStorageKey_inj r1 r2 : getStorageKey r1 = getStorageKey r2 -> r1 = r2.
Proof.
  intros H. pose proof (room_of_key_storage_key r1) as H1.
  rewrite H, room_of_key_storage_key in H1. congruence.
Qed.

Lemma getStorageUsage_empty : getStorageUsage ∅ = 0.
Proof. apply map_fold_empty. Qed.

Lemma getStorageUsage_fresh k v (st : gmap string string) :
  st !! k = None ->
  getStorageUsage (<[k := v]> st) = getStorageUsage st + item_bytes v.
Proof.
  intros H. unfold getStorageUsage.
  rewrite map_fold_insert_L; [reflexivity| |assumption].
  intros. lia.
Qed.

Lemma getStorageUsage_insert k v (st : gmap string string) :
  getStorageUsage (<[k := v]> st) = getStorageUsage (delete k st) + item_bytes v.
Proof.
  rewrite <- insert_delete_eq. apply getStorageUsage_fresh, lookup_delete_eq.
Qed.

Lemma getStorageUsage_lookup k v (st : gmap string string) :
  st !! k = Some v ->
  getStorageUsage st = getStorageUsage (delete k st) + item_bytes v.
Proof.
  intros H. rewrite <- (insert_id st k v H) at 1. apply getStorageUsage_insert.
Qed.

Lemma getStorageUsage_nonneg (st : gmap string string) : 0 <= getStorageUsage st.
Proof.
  unfold getStorageUsage.
  apply (map_fold_weak_ind (fun total _ => 0 <= total)); [lia|].
  intros k v m total _ H. lia.
Qed.

Lemma getStorageUsage_mono (st1 st2 : gmap string string) :
  st1 ⊆ st2 -> getStorageUsage st1 <= getStorageUsage st2.
Proof.
  revert st2. induction st1 as [|k v m Hk IH] using map_ind; intros st2 Hsub.
  - rewrite getStorageUsage_empty. apply getStorageUsage_nonneg.
  - assert (Hv : st2 !! k = Some v).
    { eapply lookup_weaken; [apply lookup_insert_eq|exact Hsub]. }
    rewrite getStorageUsage_fresh, (getStorageUsage_lookup k v st2) by assumption.
    assert (Hm : m ⊆ delete k st2); [|specialize (IH _ Hm); lia].
    apply map_subseteq_spec. intros j x Hj.
    destruct (decide (j = k)) as [->|Hne]; [congruence|].
    rewrite lookup_delete_ne by auto.
    eapply lookup_weaken; [|exact Hsub]. now rewrite lookup_insert_ne by auto.
Qed.

(** Writing an item grows the usage by at most the item's bytes. *)
Lemma getStorageUsage_insert_le k v (st : gmap string string) :
  getStorageUsage (<[k := v]> st) <= getStorageUsage st + item_bytes v.
Proof.
  rewrite getStorageUsage_insert.
  pose proof (getStorageUsage_mono (delete k st) st (delete_subseteq _ _)). lia.
Qed.

Lemma getStorageUsage_item k v (st : gmap string string) :
  st !! k = Some v -> item_bytes v <= getStorageUsage st.
Proof.
  intros H. rewrite (getStorageUsage_lookup k v st H).
  pose proof (getStorageUsage_nonneg (delete k st)). lia.
Qed.

Lemma cleanupExpiredData_subseteq now maxAge st :
  cleanupExpiredData now maxAge st ⊆ st.
Proof. apply map_filter_subseteq. Qed.

Lemma cleanupNonExistentRooms_subseteq rooms room st :
  cleanupNonExistentRooms rooms room st ⊆ st.
Proof. apply map_filter_subseteq. Qed.

(** The record of the room passed as [currentRoom] survives
    [cleanupNonExistentRooms]. *)
Lemma cleanupNonExistentRooms_current rooms room st :
  cleanupNonExistentRooms rooms room st !! getStorageKey room
  = st !! getStorageKey room.
Proof.
  unfold cleanupNonExistentRooms.
  destruct (st !! getStorageKey room) as [v|] eqn:E.
  - apply map_lookup_filter_Some. split; [assumption|]. simpl.
    unfold kept_room. rewrite room_of_key_storage_key.
    apply bool_decide_eq_true. set_solver.
  - apply map_lookup_filter_None. now left.
Qed.

Lemma prop_app k o kv :
  prop k (o ++ [kv]) = if String.eqb (fst kv) k then Some (snd kv) else prop k o.
Proof. unfold prop. now rewrite fold_left_app. Qed.

(** A property list without entries named [k] has no property [k]. *)
Lemma prop_absent k (o : list (string * json)) :
  Forall (fun kv => fst kv <> k) o -> prop k o = None.
Proof.
  induction o as [|kv o IH] using rev_ind; [reflexivity|].
  intros H. apply Forall_app in H as [Ho Hkv].
  rewrite prop_app. rewrite Forall_singleton in Hkv.
  destruct (String.eqb_spec (fst kv) k) as [E|E]; [now destruct Hkv|now apply IH].
Qed.

Lemma prop_filter_out k (o : list (string * json)) :
  prop k (filter (fun kv => fst kv <> k) o) = None.
Proof.
  apply prop_absent, Forall_forall. intros kv H.
  now apply list_elem_of_filter in H as [H _].
Qed.

(** Dropping the entries named [k] leaves every other property as it
    was. *)
Lemma prop_filter_other k j (o : list (string * json)) :
  j <> k -> prop j (filter (fun kv => fst kv <> k) o) = prop j o.
Proof.
  intros Hjk. induction o as [|kv o IH] using rev_ind; [reflexivity|].
  rewrite filter_app, prop_app. cbn [filter list_filter].
  destruct (decide (fst kv <> k)) as [Hkv|Hkv].
  - now rewrite prop_app, IH.
  - rewrite app_nil_r, IH.
    destruct (String.eqb_spec (fst kv) j) as [E|]; [|reflexivity].
    exfalso. apply Hkv. congruence.
Qed.

End helper_facts.

Section storage_facts.
Variable c : config.
Variable accepts : gmap string string -> bool.

Lemma type_is_exclusive m s t :
  type_is m s = true -> s <> t -> type_is m t = false.
Proof.
  unfold type_is, strict_eq_str.
  destruct (prop "type" m) as [[| | |u| |]|]; try discriminate.
  intros Hs Hne. apply String.eqb_eq in Hs as ->.
  now apply String.eqb_neq.
Qed.

Lemma prepareMessageForStorage_spec m :
  prepareMessageForStorage m =
  if persistable m then Some (metadata_only m) else None.
Proof.
  unfold prepareMessageForStorage, persistable, metadata_only.
  destruct (type_is m "text") eqn:Et; simpl.
  { now rewrite (type_is_exclusive m "text" "file" Et). }
  destruct (type_is m "status") eqn:Es; simpl.
  { now rewrite (type_is_exclusive m "status" "file" Es). }
  now destruct (type_is m "file").
Qed.

(** [storable] computes the persistable subset. *)
Lemma storable_spec M : storable M = persistable_subset M.
Proof.
  unfold storable, persistable_subset.
  induction M as [|m M IH]; [reflexivity|].
  cbn [omap list_omap]. rewrite prepareMessageForStorage_spec, filter_cons.
  destruct (persistable m) eqn:E.
  - rewrite decide_True by reflexivity. cbn. now f_equal.
  - rewrite decide_False by discriminate. exact IH.
Qed.

(** No stored file message has a [data] property. *)
Lemma storable_no_data M :
  Forall (fun m => type_is m "file" = true -> prop "data" m = None) (storable M).
Proof.
  rewrite storable_spec. unfold persistable_subset.
  apply Forall_fmap, Forall_forall. intros m _. simpl.
  unfold metadata_only. destruct (type_is m "file") eqn:E.
  - intros _. apply prop_filter_out.
  - congruence.
Qed.

Lemma saveRoomMessages_unfold now roomId M st :
  saveRoomMessages c accepts now roomId M st =
  setItem accepts (getStorageKey roomId)
    (JSON_stringify (record now roomId (kept_messages c now roomId M st)))
    (swept_store c now roomId M st).
Proof.
  unfold saveRoomMessages, try_catch, saveRoomMessages_body,
    kept_messages, swept_store.
  destruct (over_budget c st _); cbn [andb];
    [destruct (over_budget c (cleanupExpiredData _ _ _) _)|];
    unfold setItem; now destruct (accepts _).
Qed.

Lemma saveRoomMessages_Return now roomId M st st' :
  saveRoomMessages c accepts now roomId M st = (Return tt, st') ->
  st' = <[getStorageKey roomId :=
            JSON_stringify (record now roomId (kept_messages c now roomId M st))]>
          (swept_store c now roomId M st)
  /\ accepts st' = true.
Proof.
  rewrite saveRoomMessages_unfold. unfold setItem.
  destruct (accepts _) eqn:E; [|discriminate].
  intros [= <-]. now split.
Qed.

(** A failed save throws the quota error and leaves the swept store. *)
Lemma saveRoomMessages_Throw now roomId M st e st' :
  saveRoomMessages c accepts now roomId M st = (Throw e, st') ->
  e = QuotaExceededError /\ st' = swept_store c now roomId M st.
Proof.
  rewrite saveRoomMessages_unfold. unfold setItem.
  destruct (accepts _); [discriminate|]. now intros [= <- <-].
Qed.

(** A save whose first estimate fits the budget writes everything storable
    into the store as it is. *)
Lemma saveRoomMessages_fits now roomId M st :
  let text := JSON_stringify (record now roomId (storable M)) in
  over_budget c st text = false ->
  accepts (<[getStorageKey roomId := text]> st) = true ->
  saveRoomMessages c accepts now roomId M st
  = (Return tt, <[getStorageKey roomId := text]> st).
Proof.
  cbv zeta. intros Hfit Hacc. rewrite saveRoomMessages_unfold.
  unfold kept_messages, swept_store, setItem. rewrite Hfit. cbn [andb].
  now rewrite Hacc.
Qed.

Lemma getStorageUsage_singleton k v :
  getStorageUsage {[k := v]} = item_bytes v.
Proof.
  rewrite <- insert_empty, getStorageUsage_fresh by apply lookup_empty.
  now rewrite getStorageUsage_empty.
Qed.

Lemma within_quota_singleton units k v :
  within_quota units {[k := v]} =
  (Z.of_nat (String.length k) + Z.of_nat (String.length v) <=? units).
Proof.
  unfold within_quota. rewrite <- insert_empty, map_fold_insert_L.
  - rewrite map_fold_empty. f_equal.
  - intros. lia.
  - apply lookup_empty.
Qed.

Lemma kept_messages_suffix now roomId M st :
  kept_messages c now roomId M st `suffix_of` storable M.
Proof.
  unfold kept_messages. destruct (_ && _); [apply slice_from_suffix|reflexivity].
Qed.

Lemma stringify_nonempty v : JSON_stringify v <> EmptyString.
Proof.
  intros H. pose proof (JsonFacts.length_stringify v) as Hl.
  unfold JSON_stringify in H. rewrite H in Hl.
  pose proof (JsonFacts.text_length_pos v). simpl in Hl. lia.
Qed.

Lemma recent_messages (l : list message) :
  recent c (JArr (JObj <$> l)) =
  JArr (JObj <$> (if MAX_MESSAGES c <? Z.of_nat (length l)
                  then slice_from (- MAX_MESSAGES c) l else l)).
Proof.
  unfold recent. rewrite length_fmap.
  destruct (_ <? _); [now rewrite slice_from_fmap|reflexivity].
Qed.

(** Loading a record written by [saveRoomMessages]. *)
Lemma loadRoomMessages_record now roomId final (st : gmap string string) :
  st !! getStorageKey roomId = Some (JSON_stringify (record now roomId final)) ->
  loadRoomMessages c roomId st = (Return (recent c (JArr (JObj <$> final))), st).
Proof.
  intros Hst. unfold loadRoomMessages, try_catch, loadRoomMessages_body.
  unfold bind, js_bind, getItem. rewrite Hst.
  pose proof (stringify_nonempty (record now roomId final)) as Hne.
  destruct (JSON_stringify (record now roomId final)) as [|ch rest] eqn:E;
    [congruence|].
  rewrite <- E. unfold JSON_parse, JSON_stringify.
  rewrite JsonFacts.parse_stringify. reflexivity.
Qed.

Lemma persisted_messages_record now roomId final (st : gmap string string) :
  st !! getStorageKey roomId = Some (JSON_stringify (record now roomId final)) ->
  persisted_messages roomId st = Some (JObj <$> final).
Proof.
  intros Hst. unfold persisted_messages. rewrite Hst.
  unfold JSON_stringify. now rewrite JsonFacts.parse_stringify.
Qed.

End storage_facts.

(** ** The sample saves *)

(** The two sample saves into a browser store of 5 * 1024 * 1024 code
    units. *)
Lemma sample_save_once :
  saveRoomMessages default_config (within_quota 5242880) 1000 "lobby"
    [sample_text; sample_file; sample_users] ∅ = (Return tt, saved_once).
Proof.
  unfold saved_once. rewrite <- insert_empty.
  apply saveRoomMessages_fits.
  - unfold over_budget. rewrite getStorageUsage_empty. vm_compute. reflexivity.
  - rewrite insert_empty, within_quota_singleton. vm_compute. reflexivity.
Defined.

Lemma sample_save_twice :
  saveRoomMessages default_config (within_quota 5242880) 2000 "lobby"
    [sample_text; sample_file; sample_users] saved_once = (Return tt, saved_twice).
Proof.
  replace saved_twice
    with (<[getStorageKey "lobby" :=
              JSON_stringify (record 2000 "lobby"
                (storable [sample_text; sample_file; sample_users]))]> saved_once)
    by apply insert_singleton_eq.
  apply saveRoomMessages_fits.
  - unfold over_budget, saved_once. rewrite getStorageUsage_singleton.
    vm_compute. reflexivity.
  - unfold saved_once. rewrite insert_singleton_eq, within_quota_singleton.
    vm_compute. reflexivity.
Defined.


(** ** Loading what was saved *)

Lemma recent_nil c : recent c (JArr []) = JArr [].
Proof.
  unfold recent. destruct (_ <? _); [|reflexivity].
  unfold slice_from. now rewrite drop_nil.
Qed.

(** C1. After [saveRoomMessages(r, M)] has returned normally,
    [loadRoomMessages(r)] on the resulting store returns an array of
    messages that is a most-recent run (a suffix, hence an in-order
    subsequence) of the persistable subset of [M] -- the text, status and
    file messages, a file message without its [data] -- of at most
    [MAX_MESSAGES] entries, no file message of which has a [data] property;
    the read leaves the store as it is.  [MAX_MESSAGES] is positive: it is
    100 by default and between 10 and 1000 after [applyServerConfig]. *)
Theorem load_after_save (c : config) (accepts : gmap string string -> bool)
    (now : Z) (roomId : string) (M : list message)
    (st st' : gmap string string) :
  0 < MAX_MESSAGES c ->
  saveRoomMessages c accepts now roomId M st = (Return tt, st') ->
  exists l : list message,
    loadRoomMessages c roomId st' = (Return (JArr (JObj <$> l)), st')
    /\ l `suffix_of` persistable_subset M
    /\ l `sublist_of` persistable_subset M
    /\ Z.of_nat (length l) <= MAX_MESSAGES c
    /\ Forall (fun m => type_is m "file" = true -> prop "data" m = None) l.
Proof.
  intros Hmax Hsave.
  apply saveRoomMessages_Return in Hsave as [-> _].
  set (kept := kept_messages c now roomId M st).
  set (l := if MAX_MESSAGES c <? Z.of_nat (length kept)
            then slice_from (- MAX_MESSAGES c) kept else kept).
  assert (Hl : l `suffix_of` kept).
  { subst l. destruct (_ <? _); [apply slice_from_suffix|reflexivity]. }
  assert (Hs : l `suffix_of` persistable_subset M).
  { rewrite <- storable_spec. etrans; [exact Hl|apply kept_messages_suffix]. }
  exists l. repeat split.
  - erewrite loadRoomMessages_record by apply lookup_insert_eq.
    now rewrite recent_messages.
  - exact Hs.
  - destruct Hs as [k ->]. apply sublist_inserts_l. reflexivity.
  - subst l. destruct (Z.ltb_spec (MAX_MESSAGES c) (Z.of_nat (length kept))).
    + rewrite slice_from_length; lia.
    + lia.
  - destruct Hs as [k Hk]. pose proof (storable_no_data M) as Hd.
    rewrite storable_spec, Hk in Hd. now apply Forall_app in Hd as [_ Hd].
Qed.

Lemma load_after_save_witness :
  exists l : list message,
    loadRoomMessages default_config "lobby" saved_once
    = (Return (JArr (JObj <$> l)), saved_once)
    /\ l `suffix_of` persistable_subset [sample_text; sample_file; sample_users]
    /\ l `sublist_of` persistable_subset [sample_text; sample_file; sample_users]
    /\ Z.of_nat (length l) <= MAX_MESSAGES default_config
    /\ Forall (fun m => type_is m "file" = true -> prop "data" m = None) l.
Proof.
  apply (load_after_save default_config (within_quota 5242880) 1000 "lobby"
           [sample_text; sample_file; sample_users] ∅ saved_once).
  - reflexivity.
  - exact sample_save_once.
Defined.

(** ** What [saveRoomMessages] persists *)

(** C4, as amended.  A successful [saveRoomMessages] leaves under the
    room's key a record whose messages are exactly the persistable subset
    (status, text, and file reduced to metadata), in order, when the size
    estimate fits [STORAGE_MAX_BYTES] before or after the sweep of expired
    records, and otherwise the slice [-floor(n/2)] of it, its most recent
    half (all of it for [n <= 1]).  [MAX_MESSAGES] plays no part: the
    record is not trimmed to it. *)
Theorem save_persists (c : config) (accepts : gmap string string -> bool)
    (now : Z) (roomId : string) (M : list message)
    (st st' : gmap string string) :
  saveRoomMessages c accepts now roomId M st = (Return tt, st') ->
  let all := persistable_subset M in
  let jsonString := JSON_stringify (record now roomId all) in
  let swept := cleanupExpiredData now (default_maxAge c) st in
  persisted_messages roomId st' =
  Some (JObj <$> (if over_budget c st jsonString && over_budget c swept jsonString
                  then slice_from (- (Z.of_nat (length all) / 2)) all
                  else all)).
Proof.
  intros Hsave. apply saveRoomMessages_Return in Hsave as [-> _]. cbv zeta.
  erewrite persisted_messages_record by apply lookup_insert_eq.
  unfold kept_messages. now rewrite storable_spec.
Qed.

Lemma save_persists_witness :
  persisted_messages "lobby" saved_once
  = Some (JObj <$>
            (if over_budget default_config ∅
                  (JSON_stringify (record 1000 "lobby"
                     (persistable_subset [sample_text; sample_file; sample_users])))
                && over_budget default_config
                     (cleanupExpiredData 1000 (default_maxAge default_config) ∅)
                     (JSON_stringify (record 1000 "lobby"
                        (persistable_subset [sample_text; sample_file; sample_users])))
             then slice_from
                    (- (Z.of_nat (length (persistable_subset
                                            [sample_text; sample_file; sample_users])) / 2))
                    (persistable_subset [sample_text; sample_file; sample_users])
             else persistable_subset [sample_text; sample_file; sample_users])).
Proof.
  apply (save_persists default_config (within_quota 5242880) 1000 "lobby"
           [sample_text; sample_file; sample_users] ∅ saved_once).
  exact sample_save_once.
Defined.

(** C4 as stated fails: with the default [MAX_MESSAGES] of 100, saving 101
    text messages into an empty store persists a record of 101 messages. *)
Lemma save_does_not_trim :
  exists (st' : gmap string string) (l : list json),
    saveRoomMessages default_config (within_quota 5242880) 1000 "lobby"
      (replicate 101 sample_text) ∅ = (Return tt, st')
    /\ persisted_messages "lobby" st' = Some l
    /\ MAX_MESSAGES default_config < Z.of_nat (length l).
Proof.
  eexists _, _. split; [|split].
  - apply saveRoomMessages_fits.
    + unfold over_budget. rewrite getStorageUsage_empty. vm_compute. reflexivity.
    + rewrite insert_empty, within_quota_singleton. vm_compute. reflexivity.
  - eapply persisted_messages_record. apply lookup_insert_eq.
  - rewrite length_fmap. vm_compute. reflexivity.
Qed.

(** ** Degenerate stored values *)



(** ** Saving twice *)

Lemma over_budget_false c st text :
  over_budget c st text = false ->
  getStorageUsage st + item_bytes text <= STORAGE_MAX_BYTES c.
Proof. unfold over_budget, item_bytes. intros H. apply Z.ltb_ge in H. lia. Qed.



(** *** A record that alone exceeds the budget *)

Lemma chars_length_letters n : Json.chars_length (letters n) = n.
Proof. induction n; simpl; [reflexivity|]. now rewrite IHn. Qed.

Lemma storable_long_message n : storable [long_message n] = [long_message n].
Proof. reflexivity. Qed.

(** A list of at most one storable message is written whole. *)
Lemma kept_messages_short c now roomId M st :
  (length (storable M) <= 1)%nat ->
  kept_messages c now roomId M st = storable M.
Proof.
  intros H. unfold kept_messages. destruct (_ && _); [|reflexivity].
  replace (Z.of_nat (length (storable M)) / 2) with 0.
  - apply slice_from_zero.
  - symmetry. apply Z.div_small. lia.
Qed.

Lemma insert_below_singleton (k v w : string) (st : gmap string string) :
  st ⊆ {[k := v]} -> <[k := w]> st = {[k := w]}.
Proof.
  intros Hsub. apply map_eq. intros i.
  destruct (decide (i = k)) as [->|Hne].
  - now rewrite lookup_insert_eq, lookup_singleton_eq.
  - rewrite lookup_insert_ne, lookup_singleton_ne by auto.
    eapply lookup_weaken_None; [|exact Hsub]. now apply lookup_singleton_ne.
Qed.

Lemma swept_store_subseteq c now roomId M st : swept_store c now roomId M st ⊆ st.
Proof.
  unfold swept_store. destruct (over_budget _ _ _);
    [apply cleanupExpiredData_subseteq|reflexivity].
Qed.

Lemma record_long_length now roomId n :
  String.length (JSON_stringify (record now roomId [long_message n])) =
  (String.length (JSON_stringify (record now roomId [long_message 0])) + n)%nat.
Proof.
  unfold JSON_stringify. rewrite !JsonFacts.length_stringify.
  unfold record, long_message.
  rewrite !JsonFacts.text_length_object. cbn [Json.members_length].
  rewrite !JsonFacts.text_length_array. cbn [map Json.items_length].
  rewrite !JsonFacts.text_length_object. cbn [Json.members_length].
  cbn [Json.text_length]. rewrite chars_length_letters. simpl letters.
  cbn [Json.chars_length]. lia.
Qed.

(** Saving one long text message twice into an empty store: both writes
    are accepted and the record alone is larger than the budget. *)
Lemma save_twice_long n :
  2621440 <= Z.of_nat n <= 5000000 ->
  exists st1 st2 : gmap string string,
    saveRoomMessages default_config (within_quota 5242880) 1000 "lobby"
      [long_message n] ∅ = (Return tt, st1)
    /\ saveRoomMessages default_config (within_quota 5242880) 2000 "lobby"
         [long_message n] st1 = (Return tt, st2)
    /\ STORAGE_MAX_BYTES default_config < getStorageUsage st2.
Proof.
  intros Hn.
  set (text1 := JSON_stringify (record 1000 "lobby" [long_message n])).
  set (text2 := JSON_stringify (record 2000 "lobby" [long_message n])).
  assert (H1 : String.length text1 = (record_overhead + n)%nat).
  { subst text1. rewrite record_long_length. f_equal. }
  assert (H2 : String.length text2 = (record_overhead + n)%nat).
  { subst text2. rewrite record_long_length. f_equal. }
  exists {[getStorageKey "lobby" := text1]}, {[getStorageKey "lobby" := text2]}.
  split; [|split].
  - rewrite saveRoomMessages_unfold, kept_messages_short by (simpl; lia).
    rewrite storable_long_message. fold text1.
    unfold setItem.
    replace (<[getStorageKey "lobby" := text1]> (swept_store default_config 1000 "lobby" [long_message n] ∅))
      with ({[getStorageKey "lobby" := text1]} : gmap string string).
    + rewrite within_quota_singleton, H1.
      destruct (Z.leb_spec (Z.of_nat (String.length (getStorageKey "lobby"))
                            + Z.of_nat (record_overhead + n)) 5242880) as [_|Hgt];
        [reflexivity|]. simpl in Hgt. lia.
    + symmetry. apply (insert_below_singleton _ text1).
      etrans; [apply swept_store_subseteq|]. apply map_empty_subseteq.
  - rewrite saveRoomMessages_unfold, kept_messages_short by (simpl; lia).
    rewrite storable_long_message. fold text2. unfold setItem.
    rewrite (insert_below_singleton _ text1) by apply swept_store_subseteq.
    rewrite within_quota_singleton, H2.
    destruct (Z.leb_spec (Z.of_nat (String.length (getStorageKey "lobby"))
                          + Z.of_nat (record_overhead + n)) 5242880) as [_|Hgt];
      [reflexivity|]. simpl in Hgt. lia.
  - rewrite <- insert_empty, getStorageUsage_fresh by apply lookup_empty.
    rewrite getStorageUsage_empty. unfold item_bytes. rewrite H2. simpl. lia.
Qed.


(** ** The quota error never reaches the [message] handler *)

Lemma saveCurrentRoomMessages_returns c accepts now roomId messages st :
  saveCurrentRoomMessages c accepts now roomId messages st =
  (Return tt, snd (saveRoomMessages c accepts now roomId messages st)).
Proof.
  unfold saveCurrentRoomMessages, try_catch.
  now destruct (saveRoomMessages _ _ _ _ _ _) as [[[]|e] st'].
Qed.

(** C2 (the code departs from it).  [saveCurrentRoomMessages] catches every
    error of [saveRoomMessages], so the handler's [try] block always runs
    to its end: for every store, room list and message the handler's whole
    effect on the store is that of one [saveRoomMessages] call, and the
    cleanup steps of its [catch] branch are never run. *)
Theorem message_handler_never_escalates (c : config)
    (accepts : gmap string string -> bool) (now : Z)
    (existingRooms : list string) (currentRoom : string)
    (currentRoomMessages : list message) (m : message)
    (st : gmap string string) :
  message_handler c accepts now existingRooms currentRoom currentRoomMessages m st
  = (Return SaveQuiet,
     snd (saveRoomMessages c accepts now currentRoom
            (currentRoomMessages ++ [m]) st)).
Proof.
  unfold message_handler, try_catch, addCurrentRoomMessage, bind, js_bind.
  now rewrite saveCurrentRoomMessages_returns.
Qed.

(** At a full store: the save of the second lobby message is refused, the
    handler returns with the store as it was -- the record of the vanished
    room [old] is still there and the lobby's record still holds one
    message -- whereas the cleanup branch, had it run, would have removed
    [old] and stored both messages. *)
Example quota_failure_is_swallowed :
  saveRoomMessages default_config (within_quota 305) 2000 "lobby"
    [sample_text; sample_text] stale_store
  = (Throw QuotaExceededError, stale_store)
  /\ message_handler default_config (within_quota 305) 2000 ["lobby"] "lobby"
       [sample_text] sample_text stale_store
     = (Return SaveQuiet, stale_store)
  /\ is_Some (stale_store !! getStorageKey "old")
  /\ persisted_messages "lobby" stale_store = Some [JObj sample_text]
  /\ (let st' := snd (escalate default_config (within_quota 305) 2000 ["lobby"]
                        "lobby" [sample_text; sample_text] stale_store) in
      st' !! getStorageKey "old" = None
      /\ persisted_messages "lobby" st' = Some [JObj sample_text; JObj sample_text]).
Proof.
  repeat split; try (vm_compute; reflexivity).
  vm_compute. eauto.
Qed.

(** ** Settings stay within their bounds *)

Lemma default_config_ok : config_ok default_config.
Proof. split; cbn; lia. Qed.

Lemma applyServerConfig_ok cfg c : config_ok c -> config_ok (applyServerConfig cfg c).
Proof.
  intros [Hm Hb Ha]. unfold applyServerConfig.
  repeat match goal with
         | |- context [match finite_field cfg ?k with _ => _ end] =>
             destruct (finite_field cfg k)
         | |- context [if ?b then _ else _] => destruct b
         end; split; cbn; lia.
Qed.

(** ** Reconnect delays *)

Ltac act_unfold :=
  unfold fail_once, runs, run, step;
  unfold joinRoom, lobby_message, room_message, lobby_close, lobby_open,
    room_open, room_close;
  unfold connectRoom, connectLobby, send, timer_callback, _scheduleReconnect;
  unfold _clearTimer, _openLobbySocket, _openRoomSocket;
  unfold new_socket, close_socket, set_ready, _emitConnection;
  unfold _emit, write, call, skip, read, bind, act_bind, mret, act_ret.

Lemma lookup_new_socket (l : list socket) (s : socket) :
  (l ++ [s]) !! length l = Some s.
Proof. now rewrite lookup_app_r, Nat.sub_diag by lia. Qed.

Lemma terminal_false code :
  terminal code = false -> (code =? 1008) = false /\ (code =? 1009) = false.
Proof. unfold terminal. now intros H%orb_false_elim. Qed.

(** One failed attempt schedules the current delay, doubles it up to the
    maximum, and leaves a new attempt under way. *)
Lemma fail_once_attempting s d code t :
  attempting s d t -> (s = Room -> terminal code = false) ->
  scheduled s (snd (fail_once s code t)) = [d]
  /\ scheduled (other s) (snd (fail_once s code t)) = []
  /\ retry_of (other s) (fst (fail_once s code t)) = retry_of (other s) t
  /\ attempting s (Z.min (d * 2) RETRY_MAX_MS) (fst (fail_once s code t)).
Proof.
  intros [(i & sock & Hws & Hsock & Hsc & Hready) Htimer Hretry Hroom] Hcode.
  destruct t as [name socks lws rws cur lr rr lt rt mc].
  destruct sock as [sc room rdy]. simpl in *. subst sc.
  destruct s; simpl in *; subst.
  - act_unfold. cbn. rewrite Hsock.
    destruct rdy; try congruence; cbn;
      (repeat split; try discriminate; cbn;
       eexists _, _; repeat split;
       [apply lookup_new_socket|reflexivity|discriminate]).
  - destruct (Hroom eq_refl) as (-> & Hcur & Hname).
    destruct (terminal_false code (Hcode eq_refl)) as [H8 H9].
    act_unfold. cbn. rewrite Hsock.
    destruct rdy; try congruence;
      repeat (progress (cbn; rewrite ?H8, ?H9, ?Hcur, ?Hname));
      (repeat split; try discriminate; try assumption; cbn;
       eexists _, _; repeat split;
       [apply lookup_new_socket|reflexivity|discriminate]).
Qed.

Lemma scheduled_app s e1 e2 :
  scheduled s (e1 ++ e2) = scheduled s e1 ++ scheduled s e2.
Proof. apply omap_app. Qed.

Lemma fail_repeatedly_delays s codes :
  forall d t,
    attempting s d t ->
    (s = Room -> Forall (fun code => terminal code = false) codes) ->
    scheduled s (snd (fail_repeatedly s codes t)) = delays d (length codes)
    /\ scheduled (other s) (snd (fail_repeatedly s codes t)) = []
    /\ retry_of (other s) (fst (fail_repeatedly s codes t)) = retry_of (other s) t.
Proof.
  induction codes as [|code codes IH]; intros d t Ht Hcodes; [easy|].
  cbn [fail_repeatedly length delays].
  destruct (fail_once_attempting s d code t Ht) as (H1 & H2 & H3 & H4).
  { intros ->. specialize (Hcodes eq_refl). now inversion Hcodes. }
  destruct (fail_once s code t) as [t1 e1]. simpl in H1, H2, H3, H4.
  destruct (IH _ t1 H4) as (I1 & I2 & I3).
  { intros ->. specialize (Hcodes eq_refl). now inversion Hcodes. }
  destruct (fail_repeatedly s codes t1) as [t2 e2]. simpl in *.
  rewrite !scheduled_app, H1, H2, I1, I2, I3, H3. easy.
Qed.

(** The sequence [d, min (2 d) max, ...] never decreases and stays within
    the maximum. *)
Lemma delays_sorted_bounded n :
  forall d, 0 <= d <= RETRY_MAX_MS ->
    Sorted Z.le (delays d n) /\ Forall (fun x => x <= RETRY_MAX_MS) (delays d n).
Proof.
  induction n as [|n IH]; intros d Hd; cbn [delays].
  - split; constructor.
  - assert (Hd' : 0 <= Z.min (d * 2) RETRY_MAX_MS <= RETRY_MAX_MS)
      by (unfold RETRY_MAX_MS in *; lia).
    destruct (IH _ Hd') as [Hs Hb]. split.
    + constructor; [assumption|].
      destruct n; cbn [delays]; constructor. lia.
    + constructor; [lia|assumption].
Qed.

(** A socket that opens resets the delay of its scope. *)
Lemma open_resets_retry t i sock :
  sockets t !! i = Some sock -> ready sock = CONNECTING ->
  retry_of (sock_scope sock) (fst (run (step (SocketOpens i)) t)) = RETRY_BASE_MS.
Proof.
  intros Hsock Hready.
  destruct t as [name socks lws rws cur lr rr lt rt mc].
  destruct sock as [sc room rdy]. simpl in *. subst rdy.
  act_unfold. cbn. rewrite Hsock.
  destruct sc; cbn; [reflexivity|].
  destruct (nonempty name); cbn; [reflexivity|].
  destruct rws; reflexivity.
Qed.

(** ** Terminal close codes *)

(** C6. When a room socket closes with code 1008 or 1009 and no manual
    close is pending, the close listener emits [closed] and then the error
    event with code [ws_closed_1008] or [ws_closed_1009] and the close
    reason, and nothing else: no timer is set, no socket is created, and
    the transport's timer field is as before. *)
Theorem terminal_close_is_final (t : transport) (i : nat) (sock : socket)
    (code : Z) (reason : string) :
  sockets t !! i = Some sock -> sock_scope sock = Room -> ready sock <> CLOSED ->
  terminal code = true ->
  _roomManualClose t = false ->
  let '(t', e) := run (step (SocketCloses i code reason)) t in
  e = [Emit EvClosed;
       Emit (EvError (closed_error (if code =? 1008 then "ws_closed_1008"
                                    else "ws_closed_1009") reason))]
  /\ scheduled Room e = []
  /\ created e = []
  /\ _roomTimer t' = _roomTimer t
  /\ roomWs t' = None.
Proof.
  intros Hsock Hsc Hready Hcode Hmanual.
  destruct t as [name socks lws rws cur lr rr lt rt mc].
  destruct sock as [sc room rdy]. simpl in *. subst sc mc.
  act_unfold. cbn. rewrite Hsock. unfold terminal in Hcode.
  destruct rdy; try congruence; cbn;
    destruct (code =? 1008) eqn:H8; cbn;
    try (destruct (code =? 1009) eqn:H9; [|discriminate Hcode]); cbn;
    rewrite ?andb_false_r; cbn; repeat split.
Qed.

Lemma terminal_close_is_final_witness :
  let '(t', e) := run (step (SocketCloses 0 1008 "policy")) open_a in
  e = [Emit EvClosed; Emit (EvError (closed_error "ws_closed_1008" "policy"))]
  /\ scheduled Room e = []
  /\ created e = []
  /\ _roomTimer t' = _roomTimer open_a
  /\ roomWs t' = None.
Proof.
  apply (terminal_close_is_final open_a 0
           {| sock_scope := Room; sock_room := "a"; ready := OPEN |}
           1008 "policy"); try reflexivity.
  discriminate.
Defined.

(** ** The user-name gate and the handshake *)



(** ** Switching rooms *)

(** C8. With a user name, [connectRoom(id2)] on a transport whose room
    socket is open for another room closes that socket manually: its only
    call is the socket's [close()], the manual flag is set and [id2] is
    current.  When the close event of that socket arrives, whatever its
    code, the listener emits [closed] (and the error event for a terminal
    code), then [roomSwitch] for [id2], clears a pending room timer, and
    opens a socket for [id2] at once; it sets no timer, the timer field is
    empty, and the flag is reset. *)
Theorem room_switch_reopens (t : transport) (i : nat) (sock : socket)
    (id2 : string) (code : Z) (reason : string) :
  username t <> EmptyString ->
  roomWs t = Some i -> sockets t !! i = Some sock ->
  sock_scope sock = Room -> ready sock = OPEN ->
  currentRoom t <> id2 -> id2 <> EmptyString ->
  let '(t1, e1) := run (connectRoom id2) t in
  let '(t2, e2) := run (step (SocketCloses i code reason)) t1 in
  e1 = [WsClose i]
  /\ _roomManualClose t1 = true /\ currentRoom t1 = id2
  /\ created e1 = [] /\ scheduled Room e1 = []
  /\ e2 = Emit EvClosed
          :: (if code =? 1008
              then [Emit (EvError (closed_error "ws_closed_1008" reason))]
              else if code =? 1009
                   then [Emit (EvError (closed_error "ws_closed_1009" reason))]
                   else [])
          ++ Emit (EvRoomSwitch id2)
          :: (if bool_decide (is_Some (_roomTimer t)) then [ClearTimeout Room] else [])
          ++ [NewWebSocket (length (sockets t)) Room id2]
  /\ scheduled Room e2 = []
  /\ _roomTimer t2 = None
  /\ roomWs t2 = Some (length (sockets t))
  /\ sockets t2 !! length (sockets t)
     = Some {| sock_scope := Room; sock_room := id2; ready := CONNECTING |}
  /\ _roomManualClose t2 = false.
Proof.
  intros Hname Hws Hsock Hsc Hready Hcur Hid2.
  destruct t as [name socks lws rws cur lr rr lt rt mc].
  destruct sock as [sc room rdy]. simpl in *. subst sc rdy rws.
  assert (Hn : nonempty name = true).
  { unfold nonempty. now destruct (String.eqb_spec name EmptyString). }
  assert (Hi : nonempty id2 = true).
  { unfold nonempty. now destruct (String.eqb_spec id2 EmptyString). }
  assert (Hc : String.eqb cur id2 = false) by now apply String.eqb_neq.
  act_unfold. cbn. rewrite Hn. cbn. rewrite Hsock. cbn. rewrite Hc. cbn.
  rewrite list_lookup_alter_eq, Hsock. cbn.
  destruct (code =? 1008) eqn:H8; [|destruct (code =? 1009) eqn:H9];
    destruct rt as [tm|]; cbn; rewrite ?Hi; cbn; rewrite ?length_alter;
    repeat split; try reflexivity;
    (rewrite lookup_app_r by (rewrite !length_alter; lia);
     now rewrite !length_alter, Nat.sub_diag).
Qed.

Lemma room_switch_reopens_witness :
  let '(t1, e1) := run (connectRoom "b") open_a in
  let '(t2, e2) := run (step (SocketCloses 0 1000 EmptyString)) t1 in
  e1 = [WsClose 0]
  /\ _roomManualClose t1 = true /\ currentRoom t1 = "b"
  /\ created e1 = [] /\ scheduled Room e1 = []
  /\ e2 = [Emit EvClosed; Emit (EvRoomSwitch "b"); NewWebSocket 1 Room "b"]
  /\ scheduled Room e2 = []
  /\ _roomTimer t2 = None
  /\ roomWs t2 = Some 1%nat
  /\ sockets t2 !! 1%nat
     = Some {| sock_scope := Room; sock_room := "b"; ready := CONNECTING |}
  /\ _roomManualClose t2 = false.
Proof.
  apply (room_switch_reopens open_a 0
           {| sock_scope := Room; sock_room := "a"; ready := OPEN |}
           "b" 1000 EmptyString); try reflexivity; discriminate.
Defined.

(** ** Oversize text *)

(** C5. For a text -- the trimmed value of the message box -- whose UTF-8
    length exceeds [MAX_MESSAGE_BYTES], [sendText] leaves the transport as
    it is and makes no [send] and no [close] call on any socket, in every
    state; when the user has a name, the room socket is open and the text
    is not empty, its one call reports the size-exceeded status with the
    text's length and the limit. *)
Theorem oversize_text_is_rejected (c : config) (utf8ByteLength : string -> Z)
    (value : string) (t : transport) :
  MAX_MESSAGE_BYTES c < utf8ByteLength (trim value) ->
  let '(t', e) := run (sendText c utf8ByteLength value) t in
  t' = t
  /\ (forall ws payload, WsSend ws payload ∉ e)
  /\ (forall i, WsClose i ∉ e)
  /\ (username t <> EmptyString -> isRoomOpen t = true ->
      trim value <> EmptyString ->
      e = [StatusMessage (TextTooLong (utf8ByteLength (trim value))
                            (MAX_MESSAGE_BYTES c))]).
Proof.
  intros Hbig. apply Z.ltb_lt in Hbig.
  unfold sendText, ensureUsername. act_unfold. cbn.
  destruct (nonempty (username t)) eqn:Hn; cbn.
  - destruct (isRoomOpen t) eqn:Ho; cbn.
    + destruct (nonempty (trim value)) eqn:Hv; cbn.
      * rewrite Hbig. cbn. repeat split.
        -- intros ws payload H. now apply list_elem_of_singleton in H.
        -- intros i H. now apply list_elem_of_singleton in H.
      * repeat split; try (intros; apply not_elem_of_nil).
        intros _ _ Hne. unfold nonempty in Hv.
        now destruct (String.eqb_spec (trim value) EmptyString).
    + repeat split; try easy.
      * intros ws payload H. now apply list_elem_of_singleton in H.
      * intros i H. now apply list_elem_of_singleton in H.
  - repeat split.
    + intros ws payload H.
      apply elem_of_cons in H as [H|H]; [discriminate|].
      now apply list_elem_of_singleton in H.
    + intros i H.
      apply elem_of_cons in H as [H|H]; [discriminate|].
      now apply list_elem_of_singleton in H.
    + intros Hne. unfold nonempty in Hn.
      now destruct (String.eqb_spec (username t) EmptyString).
Qed.

Lemma oversize_text_is_rejected_witness :
  let '(t', e) := run (sendText tiny_config ascii_bytes "  hello  ") open_a in
  t' = open_a
  /\ (forall ws payload, WsSend ws payload ∉ e)
  /\ (forall i, WsClose i ∉ e)
  /\ e = [StatusMessage (TextTooLong 5 4)].
Proof.
  pose proof (oversize_text_is_rejected tiny_config ascii_bytes "  hello  " open_a
                ltac:(reflexivity)) as H.
  destruct (run (sendText tiny_config ascii_bytes "  hello  ") open_a) as [t' e].
  destruct H as (H1 & H2 & H3 & H4).
  split; [exact H1|]. split; [exact H2|]. split; [exact H3|].
  apply H4; [discriminate|reflexivity|discriminate].
Defined.

(** ** Delays stay in range on every run *)

Lemma constructor_in_range name : retries_in_range (constructor name).
Proof.
  split; cbn; unfold in_range, RETRY_BASE_MS, RETRY_MAX_MS; try lia; discriminate.
Qed.

Lemma backoff_in_range d : in_range d -> in_range (Z.min (d * 2) RETRY_MAX_MS).
Proof. unfold in_range, RETRY_BASE_MS, RETRY_MAX_MS. lia. Qed.

Lemma base_in_range : in_range RETRY_BASE_MS.
Proof. unfold in_range, RETRY_BASE_MS, RETRY_MAX_MS. lia. Qed.

(** Case analysis on a scrutinee that contains no other match. *)
Ltac innermost x k :=
  lazymatch x with
  | context [match ?y with _ => _ end] => innermost y k
  | _ => k x
  end.

Ltac break_match :=
  match goal with
  | |- context [match ?x with _ => _ end] =>
      innermost x ltac:(fun y => destruct y eqn:?)
  end.

Ltac use_timer_range :=
  repeat match goal with
         | H : forall tm, Some ?t = Some tm -> _ |- _ => specialize (H t eq_refl)
         | H : forall tm, ?x = Some tm -> _, E : ?x = Some ?t |- _ =>
             specialize (H t E)
         | H : forall tm, None = Some tm -> _ |- _ => clear H
         end.

Lemma step_in_range i t :
  retries_in_range t ->
  retries_in_range (fst (run (step i) t))
  /\ timeouts_in_range (snd (run (step i) t)).
Proof.
  intros [Hl Hr Hlt Hrt].
  destruct t as [name socks lws rws cur lr rr lt rt mc]. cbn in *.
  pose proof base_in_range as Hb.
  pose proof backoff_in_range as Hk.
  unfold timeouts_in_range.
  unfold in_range, RETRY_BASE_MS, RETRY_MAX_MS in *.
  destruct i; act_unfold; cbn;
    repeat (break_match; cbn);
    (split; [constructor; cbn; intros; simplify_eq; use_timer_range;
             cbn; unfold in_range, RETRY_BASE_MS, RETRY_MAX_MS in *; cbn; lia
            |repeat (constructor; try exact I);
             unfold in_range, RETRY_BASE_MS, RETRY_MAX_MS; lia]).
Qed.

(** On every run from a new transport each reconnect delay handed to
    [setTimeout] is between 1000 and 8000. *)
Lemma runs_in_range inputs :
  forall t, retries_in_range t ->
    retries_in_range (fst (runs inputs t)) /\ timeouts_in_range (snd (runs inputs t)).
Proof.
  induction inputs as [|i inputs IH]; intros t Ht; cbn [runs].
  - split; [assumption|constructor].
  - destruct (step_in_range i t Ht) as [H1 H2].
    destruct (run (step i) t) as [t1 e1]. cbn in H1, H2.
    destruct (IH t1 H1) as [H3 H4].
    destruct (runs inputs t1) as [t2 e2]. cbn in *.
    split; [assumption|]. now apply Forall_app.
Qed.

(** A turn schedules at most one timer for a scope, with the scope's
    current delay, and unless a socket opens the delay does not decrease. *)
Lemma step_schedules_current s i t :
  retries_in_range t ->
  (scheduled s (snd (run (step i) t)) = []
   \/ scheduled s (snd (run (step i) t)) = [retry_of s t])
  /\ (not_open i -> retry_of s t <= retry_of s (fst (run (step i) t))).
Proof.
  intros [Hl Hr Hlt Hrt].
  destruct t as [name socks lws rws cur lr rr lt rt mc]. cbn in *.
  unfold in_range, RETRY_BASE_MS, RETRY_MAX_MS in *.
  destruct s, i; act_unfold; cbn;
    repeat (break_match; cbn);
    (split; [auto|intros Hi; try (now destruct Hi); use_timer_range;
                   unfold RETRY_MAX_MS; lia]).
Qed.

(** While no socket opens, the delays scheduled for a scope never decrease
    and lie between the scope's delay at the start and the maximum. *)
Lemma runs_sorted s inputs :
  forall t,
    retries_in_range t -> Forall not_open inputs ->
    Sorted Z.le (scheduled s (snd (runs inputs t)))
    /\ Forall (fun d => retry_of s t <= d <= RETRY_MAX_MS)
         (scheduled s (snd (runs inputs t))).
Proof.
  induction inputs as [|i inputs IH]; intros t Ht Hno; cbn [runs].
  - split; constructor.
  - apply Forall_cons in Hno as [Hi Hno].
    destruct (step_schedules_current s i t Ht) as [Hsch Hmono].
    specialize (Hmono Hi).
    destruct (step_in_range i t Ht) as [Ht1 _].
    destruct (run (step i) t) as [t1 e1]. cbn [fst snd] in *.
    destruct (IH t1 Ht1 Hno) as [Hs Hb].
    destruct (runs inputs t1) as [t2 e2]. cbn [fst snd] in *.
    rewrite scheduled_app.
    assert (Hb' : Forall (fun d => retry_of s t <= d <= RETRY_MAX_MS)
                    (scheduled s e2)).
    { eapply Forall_impl; [exact Hb|]. cbn. intros d Hd. lia. }
    destruct Hsch as [->| ->]; cbn; [now split|].
    assert (Hr : retry_of s t <= RETRY_MAX_MS).
    { destruct Ht as [[] [] _ _]. destruct s; cbn; lia. }
    split.
    + constructor; [assumption|].
      destruct (scheduled s e2) as [|d ds]; constructor.
      apply Forall_cons in Hb' as [Hd _]. lia.
    + constructor; [lia|assumption].
Qed.

(** ** The reconnect delays of a scope *)

(** C3. For either scope: starting with the delay at its base (as the
    constructor and every open leave it), the delays scheduled over
    consecutive failed attempts -- the scope's socket closes, for the room
    scope with a code other than 1008 and 1009, the timer fires and opens
    the next socket -- are [d0 = 1000, d(n+1) = min (2 * d(n)) 8000]; the
    sequence never decreases and stays within 8000; the other scope gets no
    timer and keeps its delay.  On every run in which no socket opens,
    whatever else happens, the delays scheduled for the scope never
    decrease and stay within 8000.  A socket that opens sets the delay of
    its scope to 1000. *)
Theorem reconnect_delays (s : scope) (codes : list Z) (t : transport) :
  attempting s RETRY_BASE_MS t ->
  (s = Room -> Forall (fun code => terminal code = false) codes) ->
  let ds := scheduled s (snd (fail_repeatedly s codes t)) in
  ds = delays RETRY_BASE_MS (length codes)
  /\ Sorted Z.le ds
  /\ Forall (fun d => d <= RETRY_MAX_MS) ds
  /\ scheduled (other s) (snd (fail_repeatedly s codes t)) = []
  /\ retry_of (other s) (fst (fail_repeatedly s codes t)) = retry_of (other s) t
  /\ (forall inputs t0,
        retries_in_range t0 -> Forall not_open inputs ->
        Sorted Z.le (scheduled s (snd (runs inputs t0)))
        /\ Forall (fun d => retry_of s t0 <= d <= RETRY_MAX_MS)
             (scheduled s (snd (runs inputs t0))))
  /\ (forall t0 i sock,
        sockets t0 !! i = Some sock -> ready sock = CONNECTING ->
        retry_of (sock_scope sock) (fst (run (step (SocketOpens i)) t0))
        = RETRY_BASE_MS).
Proof.
  intros Ht Hcodes. cbv zeta.
  destruct (fail_repeatedly_delays s codes _ t Ht Hcodes) as (H1 & H2 & H3).
  destruct (delays_sorted_bounded (length codes) RETRY_BASE_MS) as [Hs Hb];
    [unfold RETRY_BASE_MS, RETRY_MAX_MS; lia|].
  rewrite H1. repeat split; try assumption.
  - now apply runs_sorted.
  - now apply runs_sorted.
  - apply open_resets_retry.
Qed.

Lemma connecting_a_attempting : attempting Room RETRY_BASE_MS connecting_a.
Proof.
  split; try reflexivity.
  - exists 0%nat, {| sock_scope := Room; sock_room := "a"; ready := CONNECTING |}.
    repeat split. discriminate.
  - intros _. repeat split.
Defined.

Lemma reconnect_delays_witness :
  let ds := scheduled Room
              (snd (fail_repeatedly Room [1006; 1006; 1001; 1006; 1006] connecting_a)) in
  ds = [1000; 2000; 4000; 8000; 8000]
  /\ Sorted Z.le ds
  /\ Forall (fun d => d <= RETRY_MAX_MS) ds
  /\ scheduled Lobby
       (snd (fail_repeatedly Room [1006; 1006; 1001; 1006; 1006] connecting_a)) = []
  /\ retry_of Lobby
       (fst (fail_repeatedly Room [1006; 1006; 1001; 1006; 1006] connecting_a))
     = retry_of Lobby connecting_a
  /\ (forall inputs t0,
        retries_in_range t0 -> Forall not_open inputs ->
        Sorted Z.le (scheduled Room (snd (runs inputs t0)))
        /\ Forall (fun d => retry_of Room t0 <= d <= RETRY_MAX_MS)
             (scheduled Room (snd (runs inputs t0))))
  /\ (forall t0 i sock,
        sockets t0 !! i = Some sock -> ready sock = CONNECTING ->
        retry_of (sock_scope sock) (fst (run (step (SocketOpens i)) t0))
        = RETRY_BASE_MS).
Proof.
  apply (reconnect_delays Room [1006; 1006; 1001; 1006; 1006] connecting_a).
  - exact connecting_a_attempting.
  - intros _. repeat constructor.
Defined.

(** * Further properties of the storage module *)

Lemma type_is_filter_data m t :
  type_is (filter (fun kv => fst kv <> "data") m) t = type_is m t.
Proof. unfold type_is. now rewrite prop_filter_other. Qed.

Lemma prepareMessageForStorage_fixed m m' :
  prepareMessageForStorage m = Some m' -> prepareMessageForStorage m' = Some m'.
Proof.
  unfold prepareMessageForStorage.
  destruct (type_is m "text" || type_is m "status") eqn:E.
  { intros [= <-]. now rewrite E. }
  destruct (type_is m "file") eqn:F; [|discriminate].
  intros [= <-]. rewrite !type_is_filter_data, E, F.
  f_equal. apply list_filter_filter_l. tauto.
Qed.

(** X1. What [saveRoomMessages] prepares for the store is what it would
    prepare from its own output: preparing drops the unstorable messages and
    the [data] of files once, and a second pass changes nothing. *)
Theorem storable_idempotent (M : list message) :
  storable (storable M) = storable M.
Proof.
  unfold storable. induction M as [|m M IH]; [reflexivity|].
  cbn [omap list_omap]. destruct (prepareMessageForStorage m) as [m'|] eqn:E.
  - cbn [omap list_omap]. rewrite (prepareMessageForStorage_fixed _ _ E).
    now f_equal.
  - exact IH.
Qed.

(** ** The two cleanups *)

Lemma Qle_bool_trans_false (x a b : Q) :
  (a <= b)%Q -> Qle_bool x a = true -> Qle_bool x b = true.
Proof.
  intros Hab H. apply Qle_bool_iff. apply Qle_bool_iff in H.
  now apply Qle_trans with a.
Qed.

(** A record that is kept under a threshold is kept under every larger
    one. *)
Lemma purged_antimono now (a b : Q) key value :
  (a <= b)%Q -> purged now a key value = false -> purged now b key value = false.
Proof.
  intros Hab. unfold purged. destruct (room_of_key key); [|reflexivity].
  destruct (Json.parse value) as [data|]; [|discriminate].
  destruct data as [| | | | |o]; try reflexivity; try discriminate.
  unfold expired. destruct (truthy (prop "timestamp" o)); [|reflexivity].
  cbn [andb]. destruct (prop "timestamp" o) as [v|]; [|reflexivity].
  destruct (to_number v) as [t|]; [|reflexivity].
  intros H. apply negb_false_iff in H. apply negb_false_iff.
  now apply Qle_bool_trans_false with a.
Qed.

(** X2. Sweeping with a threshold after a sweep with a larger one (at the
    same time) leaves what the sweep with the smaller threshold alone
    leaves: the halving thresholds of the escalation in main.js each subsume
    the sweeps before them. *)
Theorem sweep_subsumes (now : Z) (a b : Q) (st : gmap string string) :
  (a <= b)%Q ->
  cleanupExpiredData now a (cleanupExpiredData now b st)
  = cleanupExpiredData now a st.
Proof.
  intros Hab. unfold cleanupExpiredData.
  apply map_filter_filter_l. intros k v _. cbn [fst snd].
  now apply purged_antimono.
Qed.

Lemma sweep_subsumes_witness :
  cleanupExpiredData 2000 (7 # 4) (cleanupExpiredData 2000 (7 # 2) stale_store)
  = cleanupExpiredData 2000 (7 # 4) stale_store.
Proof. apply sweep_subsumes. unfold Qle. simpl. lia. Defined.

(** X3. The sweep of expired records and the removal of the records of rooms
    that no longer exist can be done in either order, and doing either one
    twice is doing it once. *)
Theorem cleanups_commute (now : Z) (maxAge : Q) (existingRooms : list string)
    (currentRoom : string) (st : gmap string string) :
  cleanupExpiredData now maxAge (cleanupNonExistentRooms existingRooms currentRoom st)
  = cleanupNonExistentRooms existingRooms currentRoom (cleanupExpiredData now maxAge st)
  /\ cleanupExpiredData now maxAge (cleanupExpiredData now maxAge st)
     = cleanupExpiredData now maxAge st
  /\ cleanupNonExistentRooms existingRooms currentRoom
       (cleanupNonExistentRooms existingRooms currentRoom st)
     = cleanupNonExistentRooms existingRooms currentRoom st.
Proof.
  unfold cleanupExpiredData, cleanupNonExistentRooms. split; [|split].
  - apply map_filter_comm.
  - apply map_filter_filter_l. tauto.
  - apply map_filter_filter_l. tauto.
Qed.

(** *** When a record expires *)

Lemma purged_record now maxAge t roomId final :
  purged now maxAge (getStorageKey roomId) (JSON_stringify (record t roomId final))
  = negb (t =? 0) && negb (Qle_bool (inject_Z (now - t)) maxAge).
Proof.
  unfold purged. rewrite room_of_key_storage_key.
  unfold JSON_stringify. rewrite JsonFacts.parse_stringify.
  unfold record, expired. cbn [prop fold_left fst snd String.eqb Ascii.eqb Bool.eqb].
  cbn [truthy]. cbn [to_number]. now destruct t.
Qed.

(** X4. A record written by [saveRoomMessages] at time [t] is removed by
    [cleanupExpiredData] at time [now] exactly when it is older than
    [maxAge]; a record stamped with time 0 has a falsy [timestamp] and is
    never removed. *)
Theorem record_expiry (now : Z) (maxAge : Q) (t : Z) (roomId : string)
    (final : list message) (st : gmap string string) :
  st !! getStorageKey roomId = Some (JSON_stringify (record t roomId final)) ->
  (cleanupExpiredData now maxAge st !! getStorageKey roomId = None
   <-> t <> 0 /\ (maxAge < inject_Z (now - t))%Q)
  /\ (cleanupExpiredData now maxAge st !! getStorageKey roomId
      = Some (JSON_stringify (record t roomId final))
      <-> t = 0 \/ (inject_Z (now - t) <= maxAge)%Q).
Proof.
  intros Hst. unfold cleanupExpiredData.
  assert (Hp := purged_record now maxAge t roomId final).
  assert (Hle : Qle_bool (inject_Z (now - t)) maxAge = true
                <-> (inject_Z (now - t) <= maxAge)%Q) by apply Qle_bool_iff.
  split; split.
  - intros H. apply map_lookup_filter_None in H as [H|H]; [congruence|].
    specialize (H _ Hst). cbn [fst snd] in H. rewrite Hp in H.
    destruct (Z.eqb_spec t 0) as [|Ht]; [now destruct H|]. split; [exact Ht|].
    cbn [negb andb] in H. apply Qnot_le_lt. intros Hq. apply Hle in Hq.
    rewrite Hq in H. now destruct H.
  - intros [Ht Hq]. apply map_lookup_filter_None. right. intros v Hv.
    rewrite Hst in Hv. injection Hv as <-. cbn [fst snd]. rewrite Hp.
    destruct (Z.eqb_spec t 0) as [|_]; [contradiction|]. cbn [negb andb].
    destruct (Qle_bool _ _) eqn:E; [|discriminate].
    apply Qle_bool_iff in E. now apply Qle_not_lt in E.
  - intros H. apply map_lookup_filter_Some in H as [_ H].
    cbn [fst snd] in H. rewrite Hp in H.
    destruct (Z.eqb_spec t 0) as [|_]; [now left|right].
    cbn [negb andb] in H. apply negb_false_iff in H. now apply Hle.
  - intros H. apply map_lookup_filter_Some. split; [exact Hst|].
    cbn [fst snd]. rewrite Hp. destruct H as [->|H]; [reflexivity|].
    apply Hle in H. rewrite H. apply andb_false_r.
Qed.

Lemma record_expiry_witness :
  (cleanupExpiredData 604801000 (default_maxAge default_config) saved_once
     !! getStorageKey "lobby" = None
   <-> 1000 <> 0 /\ (default_maxAge default_config < inject_Z (604801000 - 1000))%Q)
  /\ (cleanupExpiredData 604801000 (default_maxAge default_config) saved_once
        !! getStorageKey "lobby"
      = Some (JSON_stringify
                (record 1000 "lobby" (storable [sample_text; sample_file; sample_users])))
      <-> 1000 = 0 \/ (inject_Z (604801000 - 1000) <= default_maxAge default_config)%Q).
Proof. apply record_expiry. unfold saved_once. apply lookup_singleton_eq. Defined.

(** ** What the module leaves alone *)

Lemma cleanupExpiredData_foreign now maxAge st k :
  room_of_key k = None -> cleanupExpiredData now maxAge st !! k = st !! k.
Proof.
  intros Hk. unfold cleanupExpiredData. destruct (st !! k) as [v|] eqn:E.
  - apply map_lookup_filter_Some. split; [exact E|]. cbn [fst snd].
    unfold purged. now rewrite Hk.
  - apply map_lookup_filter_None. now left.
Qed.

Lemma cleanupNonExistentRooms_foreign rooms room st k :
  room_of_key k = None -> cleanupNonExistentRooms rooms room st !! k = st !! k.
Proof.
  intros Hk. unfold cleanupNonExistentRooms. destruct (st !! k) as [v|] eqn:E.
  - apply map_lookup_filter_Some. split; [exact E|]. cbn [fst snd].
    unfold kept_room. now rewrite Hk.
  - apply map_lookup_filter_None. now left.
Qed.

Lemma swept_store_foreign c now roomId M st k :
  room_of_key k = None -> swept_store c now roomId M st !! k = st !! k.
Proof.
  intros Hk. unfold swept_store. destruct (over_budget _ _ _); [|reflexivity].
  now apply cleanupExpiredData_foreign.
Qed.

Lemma saveRoomMessages_other c accepts now roomId M st k :
  k <> getStorageKey roomId ->
  snd (saveRoomMessages c accepts now roomId M st) !! k
  = swept_store c now roomId M st !! k.
Proof.
  intros Hk. rewrite saveRoomMessages_unfold. unfold setItem.
  destruct (accepts _); cbn [snd]; [|reflexivity].
  now rewrite lookup_insert_ne by congruence.
Qed.

(** A load returns, and removes at most the room's own record. *)
Lemma loadRoomMessages_store c roomId st :
  exists v st', loadRoomMessages c roomId st = (Return v, st')
                /\ (st' = st \/ st' = delete (getStorageKey roomId) st).
Proof.
  unfold loadRoomMessages, try_catch, loadRoomMessages_body.
  unfold bind, js_bind, getItem.
  destruct (st !! getStorageKey roomId) as [text|]; [|cbn; eauto 6].
  destruct text as [|ch text]; [cbn; eauto 6|].
  unfold JSON_parse. destruct (Json.parse _) as [data|]; [|cbn; eauto 6].
  destruct data as [| | | | |o]; cbn -[recent truthy strict_eq_num]; eauto 6.
  destruct (negb _ || negb _); cbn -[recent truthy]; eauto 6.
Qed.

(** X5. An item whose key does not start with the module's prefix, such as
    the saved user name or the theme, is never changed: not by either
    cleanup, not by a save (whether it succeeds or is refused), not by a
    load. *)
Theorem foreign_keys_untouched (c : config)
    (accepts : gmap string string -> bool) (now : Z) (maxAge : Q)
    (existingRooms : list string) (roomId : string) (M : list message)
    (st : gmap string string) (k : string) :
  room_of_key k = None ->
  cleanupExpiredData now maxAge st !! k = st !! k
  /\ cleanupNonExistentRooms existingRooms roomId st !! k = st !! k
  /\ snd (saveRoomMessages c accepts now roomId M st) !! k = st !! k
  /\ snd (loadRoomMessages c roomId st) !! k = st !! k.
Proof.
  intros Hk.
  assert (Hne : k <> getStorageKey roomId).
  { intros ->. now rewrite room_of_key_storage_key in Hk. }
  split; [now apply cleanupExpiredData_foreign|].
  split; [now apply cleanupNonExistentRooms_foreign|]. split.
  - rewrite saveRoomMessages_other by exact Hne. now apply swept_store_foreign.
  - destruct (loadRoomMessages_store c roomId st) as (v & st' & -> & [->| ->]);
      [reflexivity|]. now apply lookup_delete_ne.
Qed.

Lemma foreign_keys_untouched_witness :
  cleanupExpiredData 2000 0 stale_store !! STORAGE_KEY = stale_store !! STORAGE_KEY
  /\ cleanupNonExistentRooms [] "lobby" stale_store !! STORAGE_KEY
     = stale_store !! STORAGE_KEY
  /\ snd (saveRoomMessages default_config (within_quota 305) 2000 "lobby"
            [sample_text] stale_store) !! STORAGE_KEY
     = stale_store !! STORAGE_KEY
  /\ snd (loadRoomMessages default_config "lobby" stale_store) !! STORAGE_KEY
     = stale_store !! STORAGE_KEY.
Proof. apply foreign_keys_untouched. reflexivity. Defined.

(** X6. A save for one room changes the record of another room in one way
    only: when its first size estimate is over budget, the other record is
    removed if [cleanupExpiredData] finds it expired or unreadable. *)
Theorem save_spares_other_rooms (c : config)
    (accepts : gmap string string -> bool) (now : Z) (roomId : string)
    (M : list message)
    (st : gmap string string) (k : string) :
  k <> getStorageKey roomId ->
  let st' := snd (saveRoomMessages c accepts now roomId M st) in
  st' !! k = st !! k
  \/ (st' !! k = None
      /\ over_budget c st (JSON_stringify (record now roomId (storable M))) = true
      /\ exists v, st !! k = Some v /\ purged now (default_maxAge c) k v = true).
Proof.
  intros Hk. cbv zeta. rewrite saveRoomMessages_other by exact Hk.
  unfold swept_store. destruct (over_budget _ _ _) eqn:E; [|now left].
  unfold cleanupExpiredData.
  destruct (st !! k) as [v|] eqn:Hv.
  - destruct (purged now (default_maxAge c) k v) eqn:Hp.
    + right. split; [|split; [reflexivity|now exists v]].
      apply map_lookup_filter_None. right. intros w Hw. cbn [fst snd].
      rewrite Hv in Hw. injection Hw as <-. now rewrite Hp.
    + left. apply map_lookup_filter_Some. now split.
  - left. apply map_lookup_filter_None. now left.
Qed.

Lemma save_spares_other_rooms_witness :
  let st' := snd (saveRoomMessages default_config (within_quota 305) 2000 "lobby"
                    [sample_text] stale_store) in
  st' !! getStorageKey "old" = stale_store !! getStorageKey "old"
  \/ (st' !! getStorageKey "old" = None
      /\ over_budget default_config stale_store
           (JSON_stringify (record 2000 "lobby" (storable [sample_text]))) = true
      /\ exists v, stale_store !! getStorageKey "old" = Some v
                   /\ purged 2000 (default_maxAge default_config)
                        (getStorageKey "old") v = true).
Proof. apply save_spares_other_rooms. discriminate. Defined.


(** ** Replacing a large record *)

(** X7. The size estimate of a save adds the new record to everything in the
    store, the room's present record included. So when the present record
    (not yet expired) and the new one together exceed [STORAGE_MAX_BYTES],
    the save writes only the most recent half of the messages into the swept
    store, although the write replaces the present record. *)
Theorem resave_counts_old_record (c : config)
    (accepts : gmap string string -> bool) (now : Z) (roomId : string)
    (M : list message) (st : gmap string string) (old : string) :
  st !! getStorageKey roomId = Some old ->
  purged now (default_maxAge c) (getStorageKey roomId) old = false ->
  STORAGE_MAX_BYTES c
  < item_bytes old + item_bytes (JSON_stringify (record now roomId (storable M))) ->
  saveRoomMessages c accepts now roomId M st
  = setItem accepts (getStorageKey roomId)
      (JSON_stringify
         (record now roomId
            (slice_from (- (Z.of_nat (length (storable M)) / 2)) (storable M))))
      (cleanupExpiredData now (default_maxAge c) st).
Proof.
  intros Hst Hp Hsize. rewrite saveRoomMessages_unfold.
  assert (Hkept : cleanupExpiredData now (default_maxAge c) st !! getStorageKey roomId
                  = Some old).
  { apply map_lookup_filter_Some. split; [exact Hst|exact Hp]. }
  assert (H1 : over_budget c st
                 (JSON_stringify (record now roomId (storable M))) = true).
  { apply Z.ltb_lt. pose proof (getStorageUsage_item _ _ _ Hst).
    unfold item_bytes in *. lia. }
  assert (H2 : over_budget c (cleanupExpiredData now (default_maxAge c) st)
                 (JSON_stringify (record now roomId (storable M))) = true).
  { apply Z.ltb_lt. pose proof (getStorageUsage_item _ _ _ Hkept).
    unfold item_bytes in *. lia. }
  unfold kept_messages, swept_store. now rewrite H1, H2.
Qed.

Lemma record_length_lower now roomId n rest :
  (n <= String.length (JSON_stringify (record now roomId (long_message n :: rest))))%nat.
Proof.
  unfold JSON_stringify. rewrite JsonFacts.length_stringify.
  unfold record. rewrite JsonFacts.text_length_object.
  cbn [Json.members_length]. rewrite JsonFacts.text_length_array.
  cbn [map Json.items_length]. rewrite JsonFacts.text_length_object.
  unfold long_message. cbn [Json.members_length Json.text_length].
  rewrite chars_length_letters. lia.
Qed.

(** Two text messages of 1,400,000 letters each, saved a second time. *)
Lemma resave_counts_old_record_witness :
  let M := [long_message (Z.to_nat 1400000); long_message (Z.to_nat 1400000)] in
  let st : gmap string string :=
    {[getStorageKey "lobby" := JSON_stringify (record 1000 "lobby" M)]} in
  saveRoomMessages default_config (within_quota 5242880) 2000 "lobby" M st
  = setItem (within_quota 5242880) (getStorageKey "lobby")
      (JSON_stringify
         (record 2000 "lobby"
            (slice_from (- (Z.of_nat (length (storable M)) / 2)) (storable M))))
      (cleanupExpiredData 2000 (default_maxAge default_config) st).
Proof.
  cbv zeta.
  apply (resave_counts_old_record default_config (within_quota 5242880) 2000 "lobby"
           [long_message (Z.to_nat 1400000); long_message (Z.to_nat 1400000)] _
           (JSON_stringify (record 1000 "lobby"
              [long_message (Z.to_nat 1400000); long_message (Z.to_nat 1400000)]))).
  - apply lookup_singleton_eq.
  - rewrite purged_record. reflexivity.
  - change (storable [long_message (Z.to_nat 1400000); long_message (Z.to_nat 1400000)])
      with [long_message (Z.to_nat 1400000); long_message (Z.to_nat 1400000)].
    unfold item_bytes.
    pose proof (record_length_lower 1000 "lobby" (Z.to_nat 1400000)
                  [long_message (Z.to_nat 1400000)]) as H1.
    pose proof (record_length_lower 2000 "lobby" (Z.to_nat 1400000)
                  [long_message (Z.to_nat 1400000)]) as H2.
    change (STORAGE_MAX_BYTES default_config) with 5242880. lia.
Defined.

(** ** Loading twice *)

(** [loadRoomMessages] by the cases of what is stored. *)
Lemma loadRoomMessages_cases c roomId st :
  loadRoomMessages c roomId st =
  match st !! getStorageKey roomId with
  | None | Some EmptyString => (Return (JArr []), st)
  | Some text =>
      match Json.parse text with
      | None | Some JNull => (Return (JArr []), st)
      | Some (JObj o) =>
          if negb (truthy (prop "version" o))
             || negb (strict_eq_num (prop "version" o) STORAGE_VERSION)
          then (Return (JArr []), delete (getStorageKey roomId) st)
          else (Return (recent c (if truthy (prop "messages" o)
                                  then default (JArr []) (prop "messages" o)
                                  else JArr [])), st)
      | Some _ => (Return (JArr []), delete (getStorageKey roomId) st)
      end
  end.
Proof.
  unfold loadRoomMessages, try_catch, loadRoomMessages_body.
  unfold bind, js_bind, getItem.
  destruct (st !! getStorageKey roomId) as [text|]; [|reflexivity].
  destruct text as [|ch text]; [reflexivity|].
  unfold JSON_parse. destruct (Json.parse _) as [data|]; [|reflexivity].
  destruct data as [| | | | |o]; try reflexivity.
  cbn -[recent truthy strict_eq_num].
  destruct (negb _ || negb _); [reflexivity|].
  cbn -[recent truthy]. now destruct (prop "messages" o).
Qed.

(** X8. A second [loadRoomMessages] of a room returns what the first
    returned and changes nothing more: a record the first load removed stays
    removed, and gives the empty array again. *)
Theorem load_twice (c : config) (roomId : string) (st : gmap string string) :
  let first := loadRoomMessages c roomId st in
  loadRoomMessages c roomId (snd first) = first.
Proof.
  cbv zeta. rewrite (loadRoomMessages_cases c roomId st).
  assert (Hdel : loadRoomMessages c roomId (delete (getStorageKey roomId) st)
                 = (Return (JArr []), delete (getStorageKey roomId) st)).
  { rewrite loadRoomMessages_cases. now rewrite lookup_delete_eq. }
  destruct (st !! getStorageKey roomId) as [text|] eqn:Hst; cbn [snd].
  2: now rewrite loadRoomMessages_cases, Hst.
  destruct text as [|ch text]; [cbn [snd]; now rewrite loadRoomMessages_cases, Hst|].
  destruct (Json.parse (String ch text)) as [data|] eqn:Hp; cbn [snd].
  2: now rewrite loadRoomMessages_cases, Hst, Hp.
  destruct data as [| | | | |o]; cbn [snd]; try exact Hdel.
  - now rewrite loadRoomMessages_cases, Hst, Hp.
  - destruct (negb _ || negb _) eqn:Hv; cbn [snd]; [exact Hdel|].
    now rewrite loadRoomMessages_cases, Hst, Hp, Hv.
Qed.

(** * Further properties of the transport *)

(** Changing the [readyState] of a socket leaves the scope and the room of
    every socket. *)
Lemma lookup_alter_socket (f : socket -> socket) (k : nat)
    (socks : list socket) (i : nat) (s : socket) :
  (forall x, sock_scope (f x) = sock_scope x /\ sock_room (f x) = sock_room x) ->
  socks !! i = Some s ->
  exists s', alter f k socks !! i = Some s'
             /\ sock_scope s' = sock_scope s /\ sock_room s' = sock_room s.
Proof.
  intros Hf Hs. destruct (decide (i = k)) as [->|Hne].
  - exists (f s). rewrite list_lookup_alter, Hs, decide_True by reflexivity.
    split; [reflexivity|apply Hf].
  - exists s. now rewrite list_lookup_alter, decide_False by congruence.
Qed.

Ltac use_handles :=
  repeat match goal with
         | H : forall i, Some ?j = Some i -> _ |- _ => specialize (H j eq_refl)
         | H : forall i, ?x = Some i -> _, E : ?x = Some ?j |- _ =>
             specialize (H j E)
         | H : forall i, None = Some i -> _ |- _ => clear H
         | H : is_Some (Some ?x) -> _ |- _ =>
             specialize (H (mk_is_Some _ _ eq_refl))
         | H : is_Some None -> _ |- _ => clear H
         | H : is_Some ?x -> _, E : ?x = Some ?y |- _ =>
             specialize (H (mk_is_Some _ _ E))
         | H : is_Some ?x -> _, I : is_Some ?x |- _ => specialize (H I)
         | H : exists _, _ |- _ => destruct H
         | H : _ /\ _ |- _ => destruct H
         | H : _ && _ = true |- _ => apply andb_prop in H
         end.

Ltac lift_alter :=
  repeat match goal with
         | Hs : ?l !! ?i = Some ?s |- context [alter ?f ?k ?l] =>
             lazymatch goal with
             | _ : alter f k l !! i = Some _ |- _ => fail
             | _ =>
                 destruct (lookup_alter_socket f k l i s
                             (fun x => conj eq_refl eq_refl) Hs)
                   as (? & ? & ? & ?)
             end
         end.

Ltac socket_goal :=
  lift_alter;
  match goal with
  | |- exists s, (_ ++ [_]) !! length _ = Some s /\ _ =>
      eexists; split; [apply lookup_new_socket|cbn; intuition congruence]
  | Hs : ?l !! ?i = Some ?s |- exists s, ?l !! ?i = Some s /\ _ =>
      exists s; split; [exact Hs|intuition congruence]
  | Hs : ?l !! ?i = Some ?s |- exists s, (?l ++ _) !! ?i = Some s /\ _ =>
      exists s; split; [apply lookup_app_l_Some; exact Hs|intuition congruence]
  end.

Lemma step_consistent i t : consistent t -> consistent (fst (run (step i) t)).
Proof.
  intros [Hl Hr Hlt Hrt Htt].
  destruct t as [name socks lws rws cur lr rr lt rt mc]. cbn in *.
  destruct i; act_unfold; cbn;
    repeat (break_match; cbn);
    (split; cbn; intros; simplify_eq; try done;
     use_handles; simplify_eq; try done;
     try solve [auto|socket_goal|cbn; intuition congruence]).
Qed.

Lemma constructor_consistent name : consistent (constructor name).
Proof. split; cbn; intros; try discriminate; now destruct H. Qed.

Lemma runs_consistent inputs :
  forall t, consistent t -> consistent (fst (runs inputs t)).
Proof.
  induction inputs as [|i inputs IH]; intros t Ht; cbn [runs]; [exact Ht|].
  pose proof (step_consistent i t Ht) as H1.
  destruct (run (step i) t) as [t1 e1]. cbn [fst] in H1.
  specialize (IH t1 H1). destruct (runs inputs t1) as [t2 e2]. exact IH.
Qed.

(** X9. On every run of a transport from its construction: the lobby handle
    names a lobby socket and the room handle a room socket, which is a
    socket of the current room unless a manual close is in progress; a scope
    never has a handle and a pending reconnect timer at once; a pending room
    timer is for the current room. *)
Theorem reachable_consistent (name : string) (inputs : list input) :
  consistent (fst (runs inputs (constructor name))).
Proof. apply runs_consistent, constructor_consistent. Qed.

Lemma step_creates_current i t :
  consistent t -> creates_current (fst (run (step i) t)) (snd (run (step i) t)).
Proof.
  intros [Hl Hr Hlt Hrt Htt].
  destruct t as [name socks lws rws cur lr rr lt rt mc]. cbn in *.
  unfold creates_current.
  destruct i; act_unfold; cbn;
    repeat (break_match; cbn);
    repeat (constructor; try exact I); cbn; rewrite ?length_alter;
    use_handles; simplify_eq; try done; try solve [auto|intuition congruence].
Qed.

(** X10. On every run of a transport from its construction, a socket created
    in a turn is the scope's handle after the turn, and a room socket is
    created for the room that is then current: no reconnect and no switch
    opens a socket for a room the user has left. *)
Theorem sockets_become_handles (name : string) (inputs : list input) (i : input) :
  let t := fst (runs inputs (constructor name)) in
  creates_current (fst (run (step i) t)) (snd (run (step i) t)).
Proof.
  cbv zeta. apply step_creates_current, runs_consistent, constructor_consistent.
Qed.

(** ** Sending while the room is closed *)

Lemma wsOpen_open_at ws t : wsOpen ws t = open_at (sockets t) ws.
Proof. reflexivity. Qed.

Lemma open_at_app socks ws s :
  ready s <> OPEN -> open_at socks ws = false -> open_at (socks ++ [s]) ws = false.
Proof.
  intros Hs. unfold open_at. destruct ws as [i|]; [|reflexivity].
  destruct (socks !! i) as [x|] eqn:E.
  - now rewrite (lookup_app_l_Some _ _ _ _ E).
  - intros _. apply lookup_ge_None in E.
    destruct (decide (i = length socks)) as [->|Hne].
    + rewrite lookup_new_socket. destruct s as [? ? []]; cbn in *; congruence.
    + rewrite lookup_ge_None_2; [reflexivity|]. rewrite length_app. simpl. lia.
Qed.

Lemma open_at_new socks s :
  ready s <> OPEN -> open_at (socks ++ [s]) (Some (length socks)) = false.
Proof.
  intros Hs. unfold open_at. rewrite lookup_new_socket.
  destruct s as [? ? []]; cbn in *; congruence.
Qed.

Lemma open_at_alter (f : socket -> socket) (k : nat) socks ws :
  (forall x, ready (f x) = OPEN -> ready x = OPEN) ->
  open_at socks ws = false -> open_at (alter f k socks) ws = false.
Proof.
  intros Hf. unfold open_at. destruct ws as [i|]; [|reflexivity].
  rewrite list_lookup_alter. destruct (decide (k = i)) as [->|_]; [|easy].
  destruct (socks !! i) as [x|]; [|reflexivity]. cbn.
  specialize (Hf x). destruct (f x) as [? ? rf]. cbn in Hf.
  destruct rf; try reflexivity. specialize (Hf eq_refl).
  destruct x as [? ? rx]. cbn in Hf. now subst rx.
Qed.

Lemma closing_not_open x :
  ready {| sock_scope := sock_scope x; sock_room := sock_room x;
           ready := match ready x with CLOSED => CLOSED | _ => CLOSING end |} = OPEN ->
  ready x = OPEN.
Proof. now destruct x as [? ? []]. Qed.

Ltac closed_goal :=
  repeat first
    [ assumption
    | apply open_at_new; discriminate
    | apply open_at_app; [discriminate|]
    | apply open_at_alter; [first [discriminate|apply closing_not_open]|]
    | reflexivity ].

Lemma step_closed i t :
  isRoomOpen t = false -> not_open i ->
  isRoomOpen (fst (run (step i) t)) = false
  /\ Forall (fun x => is_send x = false) (snd (run (step i) t))
  /\ send_fails (snd (run (step i) t)) = (if is_send_call i then 1 else 0)%nat.
Proof.
  intros Ht Hi. unfold send_fails, isRoomOpen in *.
  destruct t as [name socks lws rws cur lr rr lt rt mc].
  rewrite wsOpen_open_at in Ht. cbn -[open_at] in Ht.
  destruct i; try (now destruct Hi); act_unfold; cbn -[open_at];
    rewrite ?wsOpen_open_at; cbn -[open_at]; rewrite ?Ht; cbn -[open_at];
    repeat (break_match; cbn -[open_at]; rewrite ?wsOpen_open_at;
            cbn -[open_at]; rewrite ?Ht; cbn -[open_at]);
    try done;
    (split; [|split]); try solve [repeat constructor|reflexivity];
    closed_goal.
Qed.

Lemma send_fails_app e1 e2 : send_fails (e1 ++ e2) = (send_fails e1 + send_fails e2)%nat.
Proof. unfold send_fails. now rewrite filter_app, length_app. Qed.

(** X11. While no socket opens, a room that is not open stays so, nothing is
    handed to [wsSend], and every call of [send] is answered by one
    [sendFail] event - whatever else the page calls and whichever sockets
    close, frames arrive or timers fire in between. *)
Theorem closed_room_sends_nothing (t : transport) (inputs : list input) :
  isRoomOpen t = false -> Forall not_open inputs ->
  isRoomOpen (fst (runs inputs t)) = false
  /\ Forall (fun x => is_send x = false) (snd (runs inputs t))
  /\ send_fails (snd (runs inputs t))
     = length (filter (fun i => is_send_call i = true) inputs).
Proof.
  revert t. induction inputs as [|i inputs IH]; intros t Ht Hin; cbn [runs].
  - repeat split; [assumption|constructor].
  - apply Forall_cons in Hin as [Hi Hin].
    destruct (step_closed i t Ht Hi) as (H1 & H2 & H3).
    destruct (run (step i) t) as [t1 e1]. cbn [fst snd] in H1, H2, H3.
    destruct (IH t1 H1 Hin) as (I1 & I2 & I3).
    destruct (runs inputs t1) as [t2 e2]. cbn [fst snd] in *.
    split; [assumption|]. split; [now apply Forall_app|].
    rewrite send_fails_app, H3, I3, filter_cons.
    destruct (is_send_call i); [now rewrite decide_True|now rewrite decide_False].
Qed.

Lemma closed_room_sends_nothing_witness :
  let inputs := [CallSend JNull; CallConnectRoom "a"; CallSend JNull;
                 SocketCloses 0 1006 EmptyString; CallSend JNull] in
  isRoomOpen (fst (runs inputs (constructor "bob"))) = false
  /\ Forall (fun x => is_send x = false) (snd (runs inputs (constructor "bob")))
  /\ send_fails (snd (runs inputs (constructor "bob")))
     = length (filter (fun i => is_send_call i = true) inputs).
Proof.
  apply closed_room_sends_nothing; [reflexivity|repeat constructor].
Defined.

(** ** Frames *)



(** * Further properties of the settings and the error texts *)

(** X13. Whatever configurations the server sends, one after another, the
    message limit of the view stays within 10..1000, the storage budget at
    or above one megabyte and the maximal age at or above one day; the
    message size limit is taken as sent, without a bound. *)
Theorem server_settings_stay_in_bounds (cfgs : list json) (n : Z) (c : config) :
  config_ok (fold_left (fun c cfg => applyServerConfig cfg c) cfgs default_config)
  /\ MAX_MESSAGE_BYTES (applyServerConfig (JObj [("maxMessageBytes", JNum n)]) c) = n.
Proof.
  split; [|reflexivity].
  assert (H : forall c0, config_ok c0 ->
            config_ok (fold_left (fun c cfg => applyServerConfig cfg c) cfgs c0)).
  { induction cfgs as [|cfg cfgs IH]; intros c0 H0; [exact H0|].
    cbn [fold_left]. apply IH. now apply applyServerConfig_ok. }
  apply H, default_config_ok.
Qed.

Lemma same_value_zero_eq x s v :
  same_value_zero x s = true -> same_value_zero v x = same_value_zero v s.
Proof.
  destruct x as [|a|a|a|a|a], s as [|b|b|b|b|b]; try discriminate; cbn.
  - reflexivity.
  - intros H. apply Bool.eqb_prop in H. now subst.
  - intros H. apply Z.eqb_eq in H. now subst.
  - intros H. apply String.eqb_eq in H. now subst.
Qed.

Lemma existsb_same_value_zero x seen v :
  existsb (same_value_zero x) seen = true ->
  same_value_zero v x = true -> existsb (same_value_zero v) seen = true.
Proof.
  intros Hx Hv. apply existsb_exists in Hx as (s & Hs & Hxs).
  apply existsb_exists. exists s. split; [exact Hs|].
  now rewrite <- (same_value_zero_eq x s v Hxs).
Qed.

Lemma existsb_dedupe v codes :
  forall seen,
    existsb (same_value_zero v) (dedupe seen codes) || existsb (same_value_zero v) seen
    = existsb (same_value_zero v) codes || existsb (same_value_zero v) seen.
Proof.
  induction codes as [|x codes IH]; intros seen; [reflexivity|].
  cbn [dedupe existsb].
  destruct (existsb (same_value_zero x) seen) eqn:Hx.
  - rewrite IH. destruct (same_value_zero v x) eqn:Hv; [|reflexivity].
    rewrite (existsb_same_value_zero x seen v Hx Hv). now rewrite !orb_true_r.
  - cbn [existsb]. specialize (IH (x :: seen)). cbn [existsb] in IH.
    destruct (same_value_zero v x); [reflexivity|].
    now rewrite !orb_false_l in IH |- *.
Qed.

(** X14. Removing the duplicates from the server's list of error codes does
    not change the text of any code: [errorText] under the list that
    [applyServerConfig] keeps is [errorText] under the list as sent. *)
Theorem listed_codes_keep_their_text (l old : list json) (code : jsval)
    (fallback : string) :
  errorText (applyServerErrorCodes (JObj [("errorCodes", JArr l)]) old) code fallback
  = errorText l code fallback.
Proof.
  change (applyServerErrorCodes (JObj [("errorCodes", JArr l)]) old)
    with (dedupe [] l).
  unfold errorText. destruct code as [v|]; [|reflexivity].
  pose proof (existsb_dedupe v l []) as H. cbn [existsb] in H.
  rewrite !orb_false_r in H. now rewrite H.
Qed.

(** X15. A room socket closed with code 1008 or 1009: the error event the
    transport emits makes the page show the close reason when there is one,
    and otherwise the fixed text of the code, whatever error codes the
    server has listed. *)
Theorem terminal_close_text (codes : list json) (t : transport) (code : Z)
    (reason : string) (m : json) :
  terminal code = true ->
  Emit (EvError m) ∈ snd (run (room_close code reason) t) ->
  error_message codes m =
  Text (if nonempty reason then reason
        else if code =? 1008 then "协议/策略校验失败" else "消息尺寸超出限制").
Proof.
  intros Hcode Hm.
  assert (Hshow : forall name,
            own_text name ERROR_MAP <> None ->
            error_message codes (closed_error name reason)
            = Text (if nonempty reason then reason
                    else default EmptyString (own_text name ERROR_MAP))).
  { intros name Hname. unfold error_message, closed_error, field.
    cbn [prop fold_left fst snd String.eqb Ascii.eqb Bool.eqb truthy andb].
    unfold nonempty. destruct reason as [|ch reason].
    - cbn [String.eqb negb orb]. destruct name as [|ch name]; [now destruct Hname|].
      cbn [String.eqb negb truthy]. unfold errorText. cbn [truthy String.eqb negb to_string].
      now destruct (own_text _ _).
    - reflexivity. }
  assert (Hin : m = closed_error (if code =? 1008 then "ws_closed_1008"
                                  else "ws_closed_1009") reason).
  { revert Hm. unfold terminal in Hcode. act_unfold.
    destruct t as [name socks lws rws cur lr rr lt rt mc]. cbn.
    destruct (code =? 1008) eqn:E8; [|destruct (code =? 1009) eqn:E9; [|discriminate]];
      cbn; repeat (break_match; cbn); intros Hm;
      repeat (apply elem_of_cons in Hm as [Hm|Hm]; [congruence|]);
      try (now apply elem_of_nil in Hm). }
  rewrite Hin. destruct (code =? 1008); now rewrite Hshow.
Qed.

Lemma terminal_close_text_witness :
  error_message [JStr "ws_closed_1008"] (closed_error "ws_closed_1008" EmptyString)
  = Text "协议/策略校验失败".
Proof.
  apply (terminal_close_text [JStr "ws_closed_1008"] open_a 1008 EmptyString).
  - reflexivity.
  - cbn. constructor. constructor.
Defined.

(** * The connection notice *)

Lemma handleConnectionEvent_coherent s state delay v :
  coherent v -> coherent (handleConnectionEvent s state delay v).
Proof.
  unfold coherent, handleConnectionEvent, showConnectionStatus,
    hideConnectionStatus.
  destruct v as [[el|] last]; cbn; [|now destruct state].
  intros H. destruct state, s, last as [[]|]; cbn; try exact H;
    (split; [reflexivity|split; intros; congruence]).
Qed.

(** X16. The notice keeps its shape and the lobby comes first: from a page
    whose notice is hidden exactly when no scope is recorded, every sequence
    of calls of the transport leaves it so; and while the notice of a lobby
    outage is up, no event of the room scope changes it. *)
Theorem connection_notice_rules (e : list effect) (v : status_view) :
  (coherent v -> coherent (notice_after e v))
  /\ (lastConnectionScope v = Some Lobby ->
      forall state delay, handleConnectionEvent Room state delay v = v).
Proof.
  split.
  - revert v. induction e as [|x e IH]; intros v Hv; [exact Hv|].
    cbn [notice_after fold_left]. apply IH.
    destruct x as [[]| | | | | | | | |]; try exact Hv.
    now apply handleConnectionEvent_coherent.
  - intros Hlast state delay.
    unfold handleConnectionEvent, showConnectionStatus, hideConnectionStatus.
    rewrite Hlast. destruct (connectionStatus v); now destruct state.
Qed.

Lemma connection_notice_rules_witness :
  let v := {| connectionStatus :=
                Some {| textContent := retry_text Lobby 1; hidden := false;
                        is_visible := true |};
              lastConnectionScope := Some Lobby |} in
  handleConnectionEvent Room Reconnecting (Some 1000) v = v.
Proof.
  cbv zeta. apply (connection_notice_rules []). reflexivity.
Defined.

Lemma lookup_new_socket_alter (f : socket -> socket) (i : nat)
    (socks : list socket) (s : socket) :
  (alter f i socks ++ [s]) !! length socks = Some s.
Proof. rewrite <- (length_alter f socks i). apply lookup_new_socket. Qed.

Lemma secondsFromMs_in_range d : in_range d -> 1 <= secondsFromMs (Some d) <= 8.
Proof.
  unfold in_range, RETRY_BASE_MS, RETRY_MAX_MS, secondsFromMs.
  change (default 0 (Some d)) with d.
  intros [H1 H2].
  assert ((d + 500) / 1000 < 9) by (apply Z.div_lt_upper_bound; lia). lia.
Qed.

(** X17. A lobby outage on a page with the notice element: when the lobby
    socket closes, the notice shows the lobby text with the reconnect delay
    in whole seconds, between 1 and 8, whatever was shown before; when the
    timer has fired and the new socket opens, the notice is hidden and
    cleared. *)
Theorem lobby_outage_notice (d code : Z) (reason : string) (t : transport)
    (v : status_view) (el : notice) :
  attempting Lobby d t -> retries_in_range t -> connectionStatus v = Some el ->
  exists i,
    lobbyWs t = Some i
    /\ let down := runs [SocketCloses i code reason] t in
       let up := runs [TimerFires Lobby; SocketOpens (length (sockets t))] (fst down) in
       let shown :=
         {| connectionStatus :=
              Some {| textContent := retry_text Lobby (secondsFromMs (Some d));
                      hidden := false; is_visible := true |};
            lastConnectionScope := Some Lobby |} in
       notice_after (snd down) v = shown
       /\ 1 <= secondsFromMs (Some d) <= 8
       /\ notice_after (snd up) shown
          = {| connectionStatus :=
                 Some {| textContent := EmptyString; hidden := true;
                         is_visible := false |};
               lastConnectionScope := None |}.
Proof.
  intros [(i & sock & Hws & Hsock & Hsc & Hready) Htimer Hretry _] Hrange Hel.
  exists i. split; [exact Hws|]. cbv zeta.
  assert (Hd : in_range d).
  { destruct Hrange as [Hl _ _ _]. cbn in Hretry. now subst d. }
  split; [|split; [now apply secondsFromMs_in_range|]].
  - destruct t as [name socks lws rws cur lr rr lt rt mc].
    destruct sock as [sc room rdy]. destruct v as [e last]. cbn in *. subst.
    act_unfold. cbn. rewrite Hsock.
    destruct rdy; try congruence; cbn;
      unfold handleConnectionEvent, showConnectionStatus; cbn;
      now destruct last as [[]|].
  - destruct t as [name socks lws rws cur lr rr lt rt mc].
    destruct sock as [sc room rdy]. cbn in *. subst.
    act_unfold. cbn. rewrite Hsock.
    destruct rdy; try congruence; cbn; rewrite lookup_new_socket_alter;
      reflexivity.
Qed.

Lemma connecting_lobby_attempting : attempting Lobby RETRY_BASE_MS connecting_lobby.
Proof.
  split; try reflexivity.
  - exists 0%nat, {| sock_scope := Lobby; sock_room := EmptyString; ready := CONNECTING |}.
    repeat split. discriminate.
  - discriminate.
Defined.

Lemma lobby_outage_notice_witness :
  exists i,
    lobbyWs connecting_lobby = Some i /\ 1 <= secondsFromMs (Some 1000) <= 8.
Proof.
  destruct (lobby_outage_notice 1000 1006 EmptyString connecting_lobby
              hidden_notice
              {| textContent := EmptyString; hidden := true; is_visible := false |})
    as (i & Hi & _ & Hs & _).
  - exact connecting_lobby_attempting.
  - apply (runs_in_range [CallConnectLobby]), constructor_in_range.
  - reflexivity.
  - exists i. split; [exact Hi|exact Hs].
Defined.

(** * The user name *)

Ltac pg_unfold :=
  unfold confirmUsername, ensureUsername_with, init;
  unfold bind, pg_bind, on_transport, on_store, read_store, emit, mret, pg_ret.

Lemma nonempty_true s : nonempty s = true <-> s <> EmptyString.
Proof.
  unfold nonempty. destruct (String.eqb_spec s EmptyString); cbn; split;
    congruence.
Qed.

(** X18. [confirmUsername] reports [true] exactly when it has changed the
    user name, and then the name is the trimmed value of the box, which is
    not empty and passes [validName]; otherwise nothing on the page changes.
    Of the transport only the name changes. A [rename] frame is sent, once
    and on the room handle, exactly when the name has changed while the room
    is open. *)
Theorem confirmUsername_outcome (validName : string -> bool)
    (accepts : gmap string string -> bool) (codes : list json)
    (value : string) (p : page) :
  let '(ok, p', e) := confirmUsername validName accepts codes value p in
  let t := transport_of p in
  (ok = true <-> username (transport_of p') <> username t)
  /\ (if ok
      then username (transport_of p') = trim value
           /\ trim value <> EmptyString /\ validName (trim value) = true
      else p' = p)
  /\ transport_of p' = set_username (username (transport_of p')) t
  /\ sent e = (if ok && isRoomOpen t
               then [(roomWs t, rename_frame (trim value))] else []).
Proof.
  destruct p as [t st ls]. destruct t as [name socks lws rws cur lr rr lt rt mc].
  pg_unfold. cbn.
  destruct (nonempty (trim value)) eqn:Hn; cbn;
    [|repeat split; congruence].
  destruct (validName (trim value)) eqn:Hv; cbn;
    [|repeat split; congruence].
  destruct (String.eqb_spec (trim value) name) as [He|He]; cbn.
  { repeat split; congruence. }
  unfold isRoomOpen, send, read, bind, act_bind. cbn.
  apply nonempty_true in Hn.
  destruct (wsOpen rws _) eqn:Ho; cbn; rewrite ?Ho; cbn;
    repeat split; try congruence; now rewrite wsOpen_open_at in *.
Qed.

(** X19. A changed name is written under [lanchat_username] when the browser
    accepts the write, and [loadSavedUsername] then returns it; when the
    browser refuses, the store is left as it was (the name is still changed
    for this page). Room records are not touched either way. *)
Theorem confirmed_name_is_saved (validName : string -> bool)
    (accepts : gmap string string -> bool) (codes : list json)
    (value : string) (p p' : page) (e : list page_call) :
  confirmUsername validName accepts codes value p = (true, p', e) ->
  (if accepts (<[STORAGE_KEY := trim value]> (localStorage p))
   then loadSavedUsername (localStorage p') = trim value
   else localStorage p' = localStorage p)
  /\ forall roomId,
       localStorage p' !! getStorageKey roomId = localStorage p !! getStorageKey roomId.
Proof.
  destruct p as [t st ls]. destruct t as [name socks lws rws cur lr rr lt rt mc].
  pg_unfold. cbn.
  destruct (nonempty (trim value)); cbn; [|discriminate].
  destruct (validName (trim value)); cbn; [|discriminate].
  destruct (String.eqb (trim value) name); cbn; [discriminate|].
  unfold try_catch, setItem, isRoomOpen, send, read, bind, act_bind. cbn.
  destruct (wsOpen rws _) eqn:Ho; cbn; rewrite ?Ho; cbn;
    destruct (accepts _); cbn; intros H; inversion H; subst; cbn;
    (split; [first [reflexivity
                   |unfold loadSavedUsername; now rewrite lookup_insert_eq]|]);
    intros roomId; try reflexivity; now rewrite lookup_insert_ne.
Qed.

Lemma confirmed_name_is_saved_witness :
  loadSavedUsername
    (localStorage
       (snd (fst (confirmUsername (fun _ => true) (within_quota 100) []
                    " bob " (new_page ∅)))))
  = "bob".
Proof.
  pose proof (confirmed_name_is_saved (fun _ => true) (within_quota 100) []
                " bob " (new_page ∅)
                (snd (fst (confirmUsername (fun _ => true) (within_quota 100) []
                             " bob " (new_page ∅))))
                (snd (confirmUsername (fun _ => true) (within_quota 100) []
                        " bob " (new_page ∅)))
                eq_refl) as [H _].
  exact H.
Defined.


(** X21. [ensureUsername] without [autoConfirm] is the check that [sendText]
    makes. With [autoConfirm] and no name set, it answers [true] whenever
    the name box is not blank - also when the value fails [validName], in
    which case no name is set afterwards. *)
Theorem ensureUsername_with_outcome (validName : string -> bool)
    (accepts : gmap string string -> bool) (codes : list json)
    (value : string) (p : page) :
  ensureUsername_with validName accepts codes false value p
  = on_transport ensureUsername p
  /\ (username (transport_of p) = EmptyString ->
      let '(ok, p', _) := ensureUsername_with validName accepts codes true value p in
      ok = nonempty (trim value)
      /\ (username (transport_of p') = EmptyString
          <-> trim value = EmptyString \/ validName (trim value) = false)).
Proof.
  destruct p as [t st ls]. destruct t as [name socks lws rws cur lr rr lt rt mc].
  split.
  - pg_unfold. unfold ensureUsername, read, call, bind, act_bind, mret, act_ret.
    cbn. now destruct (nonempty name).
  - cbn. intros ->. pg_unfold. cbn.
    destruct (nonempty (trim value)) eqn:Hn; cbn.
    + apply nonempty_true in Hn.
      destruct (validName (trim value)) eqn:Hv; cbn.
      * destruct (String.eqb_spec (trim value) EmptyString) as [He|He];
          [contradiction|]. cbn.
        unfold isRoomOpen, send, read, bind, act_bind. cbn.
        destruct (wsOpen rws _); cbn; rewrite ?wsOpen_open_at; cbn;
          repeat (destruct (open_at _ _); cbn);
          (split; [reflexivity|split; [congruence|intros [?|?]; congruence]]).
      * split; [reflexivity|]. split; [now right|reflexivity].
    + split; [reflexivity|]. split; [|reflexivity].
      intros _. left. unfold nonempty in Hn.
      destruct (String.eqb_spec (trim value) EmptyString); [assumption|discriminate].
Qed.

Lemma ensureUsername_with_outcome_witness :
  let '(ok, p', _) :=
    ensureUsername_with (fun _ => false) (within_quota 100) [] true "b b" (new_page ∅) in
  ok = true /\ username (transport_of p') = EmptyString.
Proof.
  destruct (ensureUsername_with_outcome (fun _ => false) (within_quota 100) []
              "b b" (new_page ∅)) as [_ H].
  specialize (H eq_refl).
  destruct (ensureUsername_with _ _ _ true "b b" (new_page ∅)) as [[ok p'] e].
  destruct H as [H1 H2]. split; [exact H1|]. apply H2. now right.
Defined.

(** * Creating a room *)

Lemma listeners_below (j : nat) (ls : list (nat * string)) :
  Forall (fun l => (fst l < j)%nat) ls ->
  filter (fun l => fst l = j) ls = [] /\ filter (fun l => fst l <> j) ls = ls.
Proof.
  induction ls as [|l ls IH]; [easy|]. intros H.
  apply Forall_cons in H as [Hl Hls]. destruct (IH Hls) as [H1 H2].
  rewrite !filter_cons, H1, H2.
  rewrite decide_False by lia. now rewrite decide_True by lia.
Qed.

Lemma fire_new_listener (j : nat) (room : string) (ls : list (nat * string)) :
  Forall (fun l => (fst l < j)%nat) ls ->
  filter (fun l => fst l = j) (ls ++ [(j, room)]) = [(j, room)]
  /\ filter (fun l => fst l <> j) (ls ++ [(j, room)]) = ls.
Proof.
  intros H. destruct (listeners_below j ls H) as [H1 H2].
  rewrite !filter_app, H1, H2, !filter_cons, !filter_nil. cbn [fst].
  rewrite decide_True by reflexivity. rewrite decide_False by tauto.
  now rewrite app_nil_r.
Qed.

Ltac create_unfold :=
  unfold create_click, requestCreate, socket_opens, fire_listeners,
    set_listeners, set_creating, read_page;
  pg_unfold.

(** X22. [requestCreate] sends the [create] frame once. On an open lobby
    socket it is sent at once and nothing else happens. Otherwise (also when
    a lobby socket is still connecting) a new lobby socket is created and
    becomes the handle, nothing is sent yet, and when that socket opens the
    frame is sent on it; the listener is then gone, so a later event sends
    nothing more. *)
Theorem requestCreate_sends_once (room : string) (p : page) :
  let t := transport_of p in
  let '(_, p1, e1) := requestCreate room p in
  if wsOpen (lobbyWs t) t then
    p1 = p /\ e1 = [Call (WsSend (lobbyWs t) (create_frame room))]
  else
    let j := length (sockets t) in
    sent e1 = []
    /\ opened_sockets e1 = [(j, Lobby, EmptyString)]
    /\ lobbyWs (transport_of p1) = Some j
    /\ create_listeners p1 = create_listeners p ++ [(j, room)]
    /\ (Forall (fun l => (fst l < j)%nat) (create_listeners p) ->
        let '(_, p2, e2) := socket_opens j p1 in
        sent e2 = [(Some j, create_frame room)]
        /\ create_listeners p2 = create_listeners p
        /\ sent (snd (socket_opens j p2)) = []).
Proof.
  destruct p as [t st ls cr].
  destruct t as [name socks lws rws cur lr rr lt rt mc]. cbn [transport_of].
  create_unfold. unfold read, bind, act_bind. cbn -[wsOpen].
  destruct (wsOpen lws _) eqn:Ho; cbn -[wsOpen]; rewrite ?Ho; cbn -[wsOpen].
  { now split. }
  act_unfold.
  destruct lt as [tm|]; cbn -[wsOpen open_at]; rewrite !wsOpen_open_at;
    cbn -[open_at]; rewrite open_at_new by discriminate; cbn -[open_at];
    (repeat split; try reflexivity; intros Hls;
     destruct (fire_new_listener (length socks) room ls Hls) as [H1 H2];
     repeat (rewrite lookup_new_socket; cbn); rewrite H1, H2; cbn;
     rewrite list_lookup_alter, lookup_new_socket, decide_True by reflexivity;
     cbn; now repeat split).
Qed.

Lemma requestCreate_sends_once_witness :
  let '(_, p1, e1) := requestCreate "den" (new_page ∅) in
  let '(_, p2, e2) := socket_opens 0 p1 in
  sent e1 = [] /\ sent e2 = [(Some 0%nat, create_frame "den")]
  /\ create_listeners p2 = [].
Proof.
  pose proof (requestCreate_sends_once "den" (new_page ∅)) as H.
  cbv zeta in H.
  destruct (requestCreate "den" (new_page ∅)) as [[u p1] e1].
  change (wsOpen (lobbyWs (transport_of (new_page ∅))) (transport_of (new_page ∅)))
    with false in H. cbv iota in H.
  destruct H as (H1 & _ & _ & _ & H2). specialize (H2 (List.Forall_nil _)).
  change (length (sockets (transport_of (new_page ∅)))) with 0%nat in H2.
  destruct (socket_opens 0 p1) as [[u2 p2] e2].
  destruct H2 as (H2 & H3 & _). now repeat split.
Defined.

(** X23. A click on the button that creates a room, by a user with a name.
    With a room name that fails [validName] no socket is created and no
    request is registered. With a valid room name while the lobby socket is
    not open, two lobby sockets are created, one by the listener's call of
    [connectLobby] and one by [requestCreate]: the second becomes the handle
    and carries the request, the first stays connecting without a handle;
    nothing is sent yet. *)
Theorem create_click_opens_two_sockets (validName : string -> bool)
    (accepts : gmap string string -> bool) (codes : list json)
    (roomCode nameBox : string) (p : page) :
  let t := transport_of p in
  let r := create_click validName accepts codes roomCode nameBox p in
  let p1 := snd (fst r) in
  let j := length (sockets t) in
  nonempty (username t) = true ->
  (validName (trim roomCode) = false ->
   p1 = p /\ opened_sockets (snd r) = [] /\ sent (snd r) = [])
  /\ (validName (trim roomCode) = true -> wsOpen (lobbyWs t) t = false ->
      opened_sockets (snd r) = [(j, Lobby, EmptyString); (S j, Lobby, EmptyString)]
      /\ lobbyWs (transport_of p1) = Some (S j)
      /\ create_listeners p1 = create_listeners p ++ [(S j, trim roomCode)]
      /\ sent (snd r) = []
      /\ isCreatingRoom p1 = true
      /\ sockets (transport_of p1) !! j
         = Some {| sock_scope := Lobby; sock_room := EmptyString;
                   ready := CONNECTING |}).
Proof.
  destruct p as [t st ls cr].
  destruct t as [name socks lws rws cur lr rr lt rt mc].
  cbn [transport_of username sockets lobbyWs]. cbv zeta.
  intros Hname. create_unfold. unfold read, bind, act_bind. cbn -[wsOpen].
  rewrite Hname. cbn -[wsOpen]. split.
  - intros ->. cbn. now repeat split.
  - intros -> Ho. act_unfold. rewrite wsOpen_open_at in Ho.
    cbn -[open_at] in Ho.
    assert (Hnew : forall l : list socket,
              open_at ((l ++ [{| sock_scope := Lobby; sock_room := EmptyString;
                                 ready := CONNECTING |}])
                       ++ [{| sock_scope := Lobby; sock_room := EmptyString;
                              ready := CONNECTING |}])
                (Some (length l + 1)%nat) = false).
    { intros l.
      replace (length l + 1)%nat with
        (length (l ++ [{| sock_scope := Lobby; sock_room := EmptyString;
                          ready := CONNECTING |}]))
        by (rewrite length_app; reflexivity).
      now apply open_at_new. }
    destruct lt as [tm|];
      repeat (progress (cbn -[wsOpen open_at]; rewrite ?wsOpen_open_at;
                        cbn -[wsOpen open_at];
                        rewrite ?Ho, ?length_app, ?Hnew;
                        rewrite ?open_at_new by discriminate));
      cbn [length];
      (repeat split; try (now rewrite ?Nat.add_1_r);
       rewrite lookup_app_l by (rewrite length_app; cbn; lia);
       apply lookup_new_socket).
Qed.

Lemma create_click_opens_two_sockets_witness :
  let r := create_click (fun _ => true) (within_quota 100) [] "den" "bob"
             {| transport_of := constructor "bob"; localStorage := ∅;
                create_listeners := []; isCreatingRoom := false |} in
  opened_sockets (snd r) = [(0%nat, Lobby, EmptyString); (1%nat, Lobby, EmptyString)]
  /\ lobbyWs (transport_of (snd (fst r))) = Some 1%nat.
Proof.
  destruct (create_click_opens_two_sockets (fun _ => true) (within_quota 100) []
              "den" "bob"
              {| transport_of := constructor "bob"; localStorage := ∅;
                 create_listeners := []; isCreatingRoom := false |} eq_refl)
    as [_ H].
  destruct (H eq_refl eq_refl) as (H1 & H2 & _).
  split; [exact H1|exact H2].
Defined.

(** * The handlers of main.js that reach the store *)

Lemma elem_of_room_names r (l : list json) : r ∈ room_names l <-> JStr r ∈ l.
Proof.
  unfold room_names. rewrite list_elem_of_omap. split.
  - intros (v & Hv & Hr). destruct v; try discriminate. now injection Hr as ->.
  - intros H. now exists (JStr r).
Qed.

Lemma cleanupNonExistentRooms_lookup rooms cur st r :
  cleanupNonExistentRooms rooms cur st !! getStorageKey r
  = if bool_decide (r ∈ cur :: rooms) then st !! getStorageKey r else None.
Proof.
  unfold cleanupNonExistentRooms.
  destruct (st !! getStorageKey r) as [v|] eqn:E.
  - destruct (bool_decide (r ∈ cur :: rooms)) eqn:B.
    + apply map_lookup_filter_Some. split; [exact E|]. cbn [fst].
      unfold kept_room. now rewrite room_of_key_storage_key.
    + apply map_lookup_filter_None. right. intros w Hw. cbn [fst].
      unfold kept_room. rewrite room_of_key_storage_key. now rewrite B.
  - destruct (bool_decide _); apply map_lookup_filter_None; now left.
Qed.

(** X24. A [rooms] event never costs the record of the lobby, of the current
    room or of a room it lists, nor an item of another module; the store
    only shrinks. For a list that can be spread, the rooms kept in
    [existingRooms] are the lobby and the listed ones, and every room record
    left belongs to the current room or to one of them; for any other value
    nothing changes. *)
Theorem rooms_update_spares (names : json) (currentRoom : string)
    (existingRooms : list json) (st : gmap string string) :
  let '(rooms, st') := rooms_handler names currentRoom existingRooms st in
  st' ⊆ st
  /\ st' !! getStorageKey LOBBY_ROOM = st !! getStorageKey LOBBY_ROOM
  /\ st' !! getStorageKey currentRoom = st !! getStorageKey currentRoom
  /\ (forall k, room_of_key k = None -> st' !! k = st !! k)
  /\ match spread names with
     | Some l =>
         rooms = JStr LOBBY_ROOM :: l
         /\ (forall r, JStr r ∈ l -> st' !! getStorageKey r = st !! getStorageKey r)
         /\ (forall r, is_Some (st' !! getStorageKey r) ->
                       r = currentRoom \/ JStr r ∈ rooms)
     | None => rooms = existingRooms /\ st' = st
     end.
Proof.
  unfold rooms_handler. destruct (spread names) as [l|]; [|easy].
  split; [apply cleanupNonExistentRooms_subseteq|].
  split.
  { rewrite cleanupNonExistentRooms_lookup, bool_decide_eq_true_2; [reflexivity|].
    cbn [room_names omap list_omap]. set_solver. }
  split; [apply cleanupNonExistentRooms_current|].
  split; [intros k Hk; now apply cleanupNonExistentRooms_foreign|].
  split; [reflexivity|]. split.
  - intros r Hr. rewrite cleanupNonExistentRooms_lookup, bool_decide_eq_true_2;
      [reflexivity|].
    apply elem_of_cons. right. apply elem_of_room_names. now apply elem_of_cons; right.
  - intros r [v Hv]. rewrite cleanupNonExistentRooms_lookup in Hv.
    destruct (bool_decide (r ∈ _)) eqn:B; [|discriminate].
    apply bool_decide_eq_true in B. apply elem_of_cons in B as [->|B]; [now left|].
    right. now apply elem_of_room_names.
Qed.

(** ** The history of a room across sessions *)

Lemma storable_fixed (l : list message) :
  Forall (fun m => prepareMessageForStorage m = Some m) l -> storable l = l.
Proof.
  unfold storable. induction 1 as [|m l Hm _ IH]; [reflexivity|].
  cbn [omap list_omap]. rewrite Hm. cbn. now f_equal.
Qed.

Lemma storable_stored (M : list message) :
  Forall (fun m => prepareMessageForStorage m = Some m) (storable M).
Proof.
  unfold storable. induction M as [|m M IH]; [constructor|].
  cbn [omap list_omap]. destruct (prepareMessageForStorage m) as [m'|] eqn:E;
    [|exact IH].
  constructor; [|exact IH]. now apply prepareMessageForStorage_fixed with m.
Qed.

Lemma Forall_suffix {A} (P : A -> Prop) (l k : list A) :
  l `suffix_of` k -> Forall P k -> Forall P l.
Proof. intros [pre ->] H. now apply Forall_app in H as [_ H]. Qed.

Lemma objects_fmap (l : list message) : objects (JObj <$> l) = l.
Proof. unfold objects. induction l as [|m l IH]; [reflexivity|]. cbn. now f_equal. Qed.

Lemma no_null_fmap (l : list message) : existsb is_null (JObj <$> l) = false.
Proof. induction l as [|m l IH]; [reflexivity|exact IH]. Qed.

Lemma loadRoomHistory_record c shows t roomId final st :
  st !! getStorageKey roomId = Some (JSON_stringify (record t roomId final)) ->
  forallb (renders shows) (JObj <$> loaded c final) = true ->
  loadRoomHistory c shows roomId st = (JObj <$> loaded c final, st).
Proof.
  intros Hst Hshow. unfold loadRoomHistory.
  rewrite (loadRoomMessages_record c t roomId final st Hst), recent_messages.
  unfold loaded in *.
  destruct (MAX_MESSAGES c <? Z.of_nat (length final));
    [destruct (slice_from (- MAX_MESSAGES c) final) as [|m l]
    |destruct final as [|m l]];
    try reflexivity; cbn [fmap list_fmap] in *; now rewrite Hshow.
Qed.

Lemma joinMessage_stored roomId ts :
  prepareMessageForStorage (joinMessage roomId ts) = Some (joinMessage roomId ts).
Proof. reflexivity. Qed.

Lemma addMessageToCurrentRoom_fits c accepts now m roomId (h : list message) st :
  let messages := h ++ [m] in
  let text := JSON_stringify (record now roomId messages) in
  Forall (fun m => prepareMessageForStorage m = Some m) messages ->
  over_budget c st text = false ->
  accepts (<[getStorageKey roomId := text]> st) = true ->
  addMessageToCurrentRoom c accepts now (JObj m) roomId (JObj <$> h) st
  = (JObj <$> messages, <[getStorageKey roomId := text]> st).
Proof.
  cbv zeta. intros Hstored Hfit Hacc. unfold addMessageToCurrentRoom.
  replace ((JObj <$> h) ++ [JObj m]) with (JObj <$> (h ++ [m]))
    by now rewrite fmap_app.
  f_equal. unfold saveRoomMessages_any, try_catch.
  rewrite no_null_fmap, objects_fmap.
  rewrite <- (storable_fixed _ Hstored) in Hfit, Hacc.
  rewrite (saveRoomMessages_fits c accepts now roomId (h ++ [m]) st Hfit Hacc).
  cbn [snd]. now rewrite (storable_fixed _ Hstored).
Qed.



Lemma sample_fits (text : string) :
  (Z.of_nat (String.length text) <= 1000) ->
  over_budget default_config saved_once text = false
  /\ within_quota 5242880 (<[getStorageKey "lobby" := text]> saved_once) = true.
Proof.
  intros Hlen. split.
  - unfold over_budget, saved_once. rewrite getStorageUsage_singleton.
    apply Z.ltb_ge. unfold item_bytes.
    assert (Z.of_nat (String.length
              (JSON_stringify (record 1000 "lobby"
                 (storable [sample_text; sample_file; sample_users])))) <= 1000)
      by (vm_compute; discriminate).
    change (STORAGE_MAX_BYTES default_config) with 5242880. lia.
  - unfold saved_once.
    rewrite (insert_below_singleton _ _ text) by reflexivity.
    rewrite within_quota_singleton. apply Z.leb_le.
    assert (Z.of_nat (String.length (getStorageKey "lobby")) <= 100)
      by (vm_compute; discriminate).
    lia.
Qed.



(** ** Switching rooms *)

Lemma loadRoomHistory_store c shows roomId st :
  snd (loadRoomHistory c shows roomId st) = snd (loadRoomMessages c roomId st).
Proof.
  unfold loadRoomHistory.
  destruct (loadRoomMessages c roomId st) as [[[| | | |[|m l]|]|e] st'];
    try reflexivity.
  now destruct (forallb _ _).
Qed.

(** X27. A switch to a room replaces the messages in memory by that room's
    stored history, or by none. The store only shrinks; the record of the
    target room is left as [loadRoomMessages] leaves it - in place, if it
    was written by [saveRoomMessages] - and the lobby's record is kept as
    long as the lobby is among [existingRooms]. *)
Theorem room_switch_keeps_target (c : config) (shows : json -> bool)
    (roomId : string) (existingRooms : list json) (st : gmap string string) :
  let '(history, st') := roomSwitch_handler c shows roomId existingRooms st in
  st' ⊆ st
  /\ st' !! getStorageKey roomId
     = snd (loadRoomMessages c roomId st) !! getStorageKey roomId
  /\ (JStr LOBBY_ROOM ∈ existingRooms -> roomId <> LOBBY_ROOM ->
      st' !! getStorageKey LOBBY_ROOM = st !! getStorageKey LOBBY_ROOM)
  /\ (forall t final,
        st !! getStorageKey roomId = Some (JSON_stringify (record t roomId final)) ->
        st' !! getStorageKey roomId = st !! getStorageKey roomId
        /\ (history = JObj <$> loaded c final \/ history = [])).
Proof.
  unfold roomSwitch_handler.
  pose proof (loadRoomHistory_store c shows roomId st) as Hstore.
  destruct (loadRoomHistory c shows roomId st) as [history st1] eqn:Hload.
  cbn [snd] in Hstore. subst st1.
  destruct (loadRoomMessages_store c roomId st) as (v & st1 & Hl & Hcases).
  rewrite Hl. cbn [snd].
  split; [|split; [apply cleanupNonExistentRooms_current|split]].
  - etrans; [apply cleanupNonExistentRooms_subseteq|].
    destruct Hcases as [-> | ->]; [reflexivity|apply delete_subseteq].
  - intros Hlobby Hne.
    rewrite cleanupNonExistentRooms_lookup, bool_decide_eq_true_2.
    + destruct Hcases as [-> | ->]; [reflexivity|].
      apply lookup_delete_ne. intros H. now apply getStorageKey_inj in H.
    + apply elem_of_cons. right. now apply elem_of_room_names.
  - intros t final Hst. rewrite cleanupNonExistentRooms_current.
    pose proof (loadRoomMessages_record c t roomId final st Hst) as Hrec.
    assert (Hst1 : st1 = st) by congruence. subst st1.
    split; [reflexivity|].
    unfold loadRoomHistory in Hload. rewrite Hrec, recent_messages in Hload.
    cbn [snd] in Hload. unfold loaded. clear Hrec Hst Hl.
    destruct (MAX_MESSAGES c <? Z.of_nat (length final));
      [destruct (slice_from (- MAX_MESSAGES c) final) as [|m l]
      |destruct final as [|m l]];
      cbn [fmap list_fmap] in *;
      try (injection Hload as <-; now right);
      destruct (forallb _ _); injection Hload as <-; first [now left|now right].
Qed.

(** * Sending a file *)



(** X29. [sendFile] starts reading the file exactly when the user has a
    name, the room is open and the file is within the size limit, and it
    sends nothing itself. When the file has been read, the message is handed
    to [send] exactly when its JSON text is within [MAX_MESSAGE_BYTES]; it
    is then sent on the room socket if the room is still open, and answered
    by a [sendFail] event if not. Neither step changes the page. *)
Theorem sendFile_gate (c : config) (utf8ByteLength : string -> Z) (f : file)
    (dataUrl : string) (p : page) :
  let t := transport_of p in
  let start := sendFile c f p in
  let done := reader_onload c utf8ByteLength f dataUrl p in
  let jsonBytes := utf8ByteLength (JSON_stringify (JObj (file_message f dataUrl))) in
  snd (fst start) = p /\ sent (snd start) = []
  /\ reads (snd start)
     = (if nonempty (username t) && isRoomOpen t
           && (file_size f <=? allowedFileOriginalBytes c)
        then [file_name f] else [])
  /\ snd (fst done) = p
  /\ sent (snd done)
     = (if (jsonBytes <=? MAX_MESSAGE_BYTES c) && isRoomOpen t
        then [(roomWs t, JObj (file_message f dataUrl))] else [])
  /\ failed_sends (snd done)
     = (if (jsonBytes <=? MAX_MESSAGE_BYTES c) && negb (isRoomOpen t)
        then 1%nat else 0%nat).
Proof.
  destruct p as [t st ls cr].
  destruct t as [name socks lws rws cur lr rr lt rt mc]. cbv zeta.
  unfold sendFile, reader_onload, failed_sends. pg_unfold.
  unfold ensureUsername, isRoomOpen, send, read, call, _emit, bind, act_bind,
    mret, act_ret.
  rewrite !(Z.leb_antisym _ (file_size f)), !(Z.leb_antisym _ (utf8ByteLength _)).
  cbn -[wsOpen open_at Z.ltb allowedFileOriginalBytes JSON_stringify].
  rewrite ?wsOpen_open_at.
  cbn -[wsOpen open_at Z.ltb allowedFileOriginalBytes JSON_stringify].
  destruct (nonempty name), (open_at socks rws) eqn:Ho,
    (allowedFileOriginalBytes c <? file_size f),
    (MAX_MESSAGE_BYTES c <? utf8ByteLength _);
    repeat (progress (cbn -[wsOpen open_at JSON_stringify];
                      rewrite ?wsOpen_open_at;
                      cbn -[wsOpen open_at JSON_stringify]; rewrite ?Ho));
    cbn -[JSON_stringify]; now repeat split.
Qed.
